(** * OracleCI: a shallow embedding of
    tigramite/independence_tests/oracle_conditional_independence.py

    Python values are modelled as follows.
    - A node [(var, lag)] is a pair of integers.
    - A Python dict with integer keys (links, children, the ancestors) is an
      association list; a lookup of a missing key raises [KeyError].
    - The search dicts [pred] and [succ] map a node to a small dict whose keys
      are [None], ['tail'] and ['arrowhead']; this is the record [entry].
    - Exceptions are the constructor [Raise] of [outcome]; every [while] loop
      of the source receives a fuel argument and a loop that has not finished
      when the fuel is spent yields [OutOfFuel].  A Python computation that
      never returns is one whose model yields [OutOfFuel] for every fuel. *)

From Stdlib Require Import ZArith List Bool QArith Ascii String Lia.
From Stdlib Require Import Sorting.Sorted.
Import ListNotations.
Open Scope Z_scope.

(** ** Outcomes: results, Python exceptions, exhausted fuel *)

Inductive py_error := KeyError | IndexError | ValueError | NameError.

Inductive outcome (A : Type) : Type :=
| Ok (a : A)
| Raise (e : py_error)
| OutOfFuel.
Arguments Ok {A} a.
Arguments Raise {A} e.
Arguments OutOfFuel {A}.

Definition bind {A B : Type} (m : outcome A) (k : A -> outcome B) : outcome B :=
  match m with
  | Ok a => k a
  | Raise e => Raise e
  | OutOfFuel => OutOfFuel
  end.

Notation "x <- m ;; k" := (bind m (fun x => k))
  (at level 61, m at next level, right associativity).
Notation "' p <- m ;; k" := (bind m (fun x => match x with p => k end))
  (at level 61, p pattern, m at next level, right associativity).

(** ** Nodes and Python containers *)

Definition node : Type := (Z * Z)%type.

Definition node_eqb (a b : node) : bool :=
  (fst a =? fst b) && (snd a =? snd b).

(** [a in l] for a list of nodes. *)
Definition mem (a : node) (l : list node) : bool := existsb (node_eqb a) l.

(** [range(n)] as a list of integers. *)
Definition zrange (n : Z) : list Z := map Z.of_nat (seq 0 (Z.to_nat n)).

(** [list(OrderedDict.fromkeys(l))]: first occurrences, in order. *)
Fixpoint dedup_aux (seen : list node) (l : list node) : list node :=
  match l with
  | [] => []
  | a :: l' => if mem a seen then dedup_aux seen l' else a :: dedup_aux (seen ++ [a]) l'
  end.
Definition dedup (l : list node) : list node := dedup_aux [] l.

(** A dict with integer keys. *)
Definition zdict (A : Type) : Type := list (Z * A).

Fixpoint dget {A : Type} (d : zdict A) (k : Z) : outcome A :=
  match d with
  | [] => Raise KeyError
  | (k', v) :: d' => if k =? k' then Ok v else dget d' k
  end.

Fixpoint dhas {A : Type} (d : zdict A) (k : Z) : bool :=
  match d with
  | [] => false
  | (k', _) :: d' => (k =? k') || dhas d' k
  end.

(** [d[k] = v]: replaces the value in place, or adds the key at the end. *)
Fixpoint dset_aux {A : Type} (d : zdict A) (k : Z) (v : A) : zdict A :=
  match d with
  | [] => []
  | (k', v') :: d' => if k =? k' then (k', v) :: d' else (k', v') :: dset_aux d' k v
  end.
Definition dset {A : Type} (d : zdict A) (k : Z) (v : A) : zdict A :=
  if dhas d k then dset_aux d k v else d ++ [(k, v)].

(** [d[k].append(x)] *)
Definition dappend {A : Type} (d : zdict (list A)) (k : Z) (x : A) : outcome (zdict (list A)) :=
  v <- dget d k ;; Ok (dset d k (v ++ [x])).

(** ** Links

    An entry of [links[j]] is either [(i, tau)] or [((i, tau), coeff, func)];
    the function is never read by this module and is not represented. *)

Inductive link_props :=
| LP2 (i tau : Z)
| LP3 (i tau : Z) (coeff : Q).

(** The source's [if len(link_props) == 3: ... else: ...] *)
Definition link_view (lp : link_props) : Z * Z * Q :=
  match lp with
  | LP2 i tau => (i, tau, 1%Q)
  | LP3 i tau coeff => (i, tau, coeff)
  end.

Definition links_t : Type := zdict (list link_props).

(** [OracleCI._get_lagged_parents] *)
Definition _get_lagged_parents (links : links_t) (var_lag : node) (exclude_contemp : bool)
  : outcome (list node) :=
  let (var, lag) := var_lag in
  lps <- dget links var ;;
  Ok (flat_map (fun lp =>
        let '(i, tau, coeff) := link_view lp in
        if negb (Qeq_bool coeff 0) then
          if negb (exclude_contemp && (lag =? 0)) then [(i, lag + tau)] else []
        else []) lps).

Definition children_t : Type := zdict (list (Z * Z)).

(** [OracleCI._get_children] *)
Definition _get_children (links : links_t) : outcome children_t :=
  let N := Z.of_nat (List.length links) in
  fold_left (fun acc j =>
      children <- acc ;;
      lps <- dget links j ;;
      fold_left (fun acc2 lp =>
          children2 <- acc2 ;;
          let '(i, tau, coeff) := link_view lp in
          if negb (Qeq_bool coeff 0) then dappend children2 i (j, Z.abs tau)
          else Ok children2) lps (Ok children))
    (zrange N) (Ok (map (fun j => (j, [])) (zrange N))).

(** [OracleCI._get_lagged_children] *)
Definition _get_lagged_children (var_lag : node) (children : children_t) (exclude_contemp : bool)
  : outcome (list node) :=
  let (var, lag) := var_lag in
  cs <- dget children var ;;
  Ok (flat_map (fun c =>
        let '(k, tau) := c in
        if negb (exclude_contemp && (tau =? 0)) then [(k, lag + tau)] else []) cs).

(** A dict with node keys. *)
Definition ndict (A : Type) : Type := list (node * A).

Fixpoint nget {A : Type} (d : ndict A) (k : node) : option A :=
  match d with
  | [] => None
  | (k', v) :: d' => if node_eqb k k' then Some v else nget d' k
  end.

Fixpoint nset_aux {A : Type} (d : ndict A) (k : node) (v : A) : ndict A :=
  match d with
  | [] => []
  | (k', v') :: d' => if node_eqb k k' then (k', v) :: d' else (k', v') :: nset_aux d' k v
  end.
Definition nset {A : Type} (d : ndict A) (k : node) (v : A) : ndict A :=
  match nget d k with
  | Some _ => nset_aux d k v
  | None => d ++ [(k, v)]
  end.

(** ** Ancestor search: [OracleCI._get_non_blocked_ancestors] *)

Inductive anc_mode := NonRepeating | MaxLagMode.

(** The local helper [_repeating(link, seen_links)]. *)
Definition _repeating (link : node * node) (seen_links : list (node * node)) : bool :=
  let '((i, taui), (j, tauj)) := link in
  existsb (fun seen_link =>
      let '((seen_i, seen_taui), (seen_j, seen_tauj)) := seen_link in
      (i =? seen_i) && (j =? seen_j)
      && (Z.abs (tauj - taui) =? Z.abs (seen_tauj - seen_taui))) seen_links.

(** [[(selection_var, -tau_sel) for tau_sel in range(0, max_lag + 1)]],
    concatenated over the selection variables. *)
Definition selection_nodes (selection_vars : list Z) (max_lag : Z) : list node :=
  flat_map (fun selection_var =>
      map (fun tau_sel => (selection_var, - tau_sel)) (zrange (max_lag + 1)))
    selection_vars.

(** The conditioning list of the ancestor search once the selection nodes
    have been appended: [conds = [z for z in conds if z not in Y]], then
    [conds += ...] with the value [max_lag] has at that point. *)
Definition anc_conds (selection_vars : list Z) (Y conds : list node) (max_lag : Z) : list node :=
  filter (fun z => negb (mem z Y)) conds ++ selection_nodes selection_vars max_lag.

(** Loop state of the search for one [y]: [ancestors[y]], [max_lag],
    [next_level] and [seen_links]. *)
Record anc_state := mk_anc_state {
  anc_y : list node;
  a_max_lag : Z;
  next_level : list node;
  seen_links : list (node * node)
}.

(** Body of [for par in self._get_lagged_parents(varlag):]. *)
Definition anc_visit (mode : anc_mode) (conds : list node) (varlag : node)
    (st : anc_state) (par : node) : anc_state :=
  let (i, tau) := par in
  if negb (mem par conds) && negb (mem par (anc_y st)) then
    if (match mode with NonRepeating => negb (_repeating (par, varlag) (seen_links st))
                      | MaxLagMode => false end)
       || (match mode with MaxLagMode => Z.abs tau <=? Z.abs (a_max_lag st)
                         | NonRepeating => false end)
    then mk_anc_state (anc_y st ++ [par])
           (match mode with NonRepeating => Z.max (a_max_lag st) (Z.abs tau)
                          | MaxLagMode => a_max_lag st end)
           (next_level st ++ [par]) (seen_links st ++ [(par, varlag)])
    else st
  else st.

(** Body of [for varlag in this_level:]. *)
Definition anc_level (links : links_t) (mode : anc_mode) (conds : list node)
    (this_level : list node) (st : anc_state) : outcome anc_state :=
  fold_left (fun acc varlag =>
      st1 <- acc ;;
      pars <- _get_lagged_parents links varlag false ;;
      Ok (fold_left (anc_visit mode conds varlag) pars st1))
    this_level (Ok st).

(** [while len(this_level) > 0:] *)
Fixpoint anc_while (fuel : nat) (links : links_t) (mode : anc_mode) (conds : list node)
    (this_level : list node) (st : anc_state) : outcome anc_state :=
  match fuel with
  | O => OutOfFuel
  | S f =>
      match this_level with
      | [] => Ok st
      | _ :: _ =>
          st1 <- anc_level links mode conds this_level
                   (mk_anc_state (anc_y st) (a_max_lag st) [] (seen_links st)) ;;
          anc_while f links mode conds (next_level st1) st1
      end
  end.

(** Body of [for y in Y:]. *)
Definition anc_for_y (fuel : nat) (links : links_t) (mode : anc_mode) (conds : list node)
    (acc : ndict (list node) * Z) (y : node) : outcome (ndict (list node) * Z) :=
  let '(ancestors, max_lag) := acc in
  let (j, tau) := y in
  let max_lag1 := match mode with
                  | NonRepeating => Z.max max_lag (Z.abs tau)
                  | MaxLagMode => max_lag end in
  st <- anc_while fuel links mode conds [y]
          (mk_anc_state (match nget ancestors y with Some l => l | None => [] end)
             max_lag1 [] []) ;;
  Ok (nset ancestors y (anc_y st), a_max_lag st).

Definition _get_non_blocked_ancestors (fuel : nat) (links : links_t) (selection_vars : list Z)
    (Y : list node) (conds : option (list node)) (mode : anc_mode) (max_lag : option Z)
  : outcome (ndict (list node) * Z) :=
  let conds0 := match conds with None => [] | Some c => c end in
  max_lag0 <- match mode with
              | NonRepeating => Ok 0
              | MaxLagMode => match max_lag with None => Raise ValueError | Some m => Ok m end
              end ;;
  let conds1 := anc_conds selection_vars Y conds0 max_lag0 in
  let ancestors := map (fun y => (y, [])) (dedup Y) in
  fold_left (fun acc y => a <- acc ;; anc_for_y fuel links mode conds1 a y)
    Y (Ok (ancestors, max_lag0)).

(** [OracleCI._get_max_lag_from_XYZ] *)
Definition _get_max_lag_from_XYZ (fuel : nat) (links : links_t) (selection_vars : list Z)
    (X Y Z : list node) : outcome BinNums.Z :=
  '(_, max_lag_X) <- _get_non_blocked_ancestors fuel links selection_vars X (Some Z) NonRepeating None ;;
  '(_, max_lag_Y) <- _get_non_blocked_ancestors fuel links selection_vars Y (Some Z) NonRepeating None ;;
  '(_, max_lag_Z) <- _get_non_blocked_ancestors fuel links selection_vars Z (Some Z) NonRepeating None ;;
  Ok (Z.max max_lag_X (Z.max max_lag_Y max_lag_Z)).

(** ** The d-connection search: [OracleCI._has_any_path] *)

Inductive mark := Tail | Arrowhead.

Definition mark_eqb (a b : mark) : bool :=
  match a, b with
  | Tail, Tail | Arrowhead, Arrowhead => true
  | _, _ => false
  end.

(** The value of [pred[w]] or [succ[w]]: a dict with at most the keys [None]
    (start or end node, value [None]), ['tail'] and ['arrowhead'] (value
    [(v, mark)]). *)
Record entry := mk_entry {
  e_none : bool;
  e_tail : option (node * mark);
  e_arrowhead : option (node * mark)
}.

Definition start_entry : entry := mk_entry true None None.

Definition pmap : Type := ndict entry.

(** [w in this_path] *)
Definition pin (m : pmap) (w : node) : bool :=
  match nget m w with Some _ => true | None => false end.

Definition pget_err (m : pmap) (w : node) : outcome entry :=
  match nget m w with Some e => Ok e | None => Raise KeyError end.

(** A fringe element [(w, mark)]; the mark [None] marks the start node. *)
Definition fringe_t : Type := list (node * option mark).

Section Search.

Variable links : links_t.
Variable children : children_t.
Variable conds : list node.
Variable max_lag : Z.
Variable backdoor : bool.
(** The node [x] of the enclosing [for x in X:] loop, read by the helpers. *)
Variable x : node.

(** Loop of [_walk_to_parents] over the lagged parents [ws] of [v]. *)
Fixpoint walk_to_parents_loop (v : node) (ws : list node) (fringe : fringe_t)
    (this_path other_path : pmap) : option (node * mark) * fringe_t * pmap :=
  match ws with
  | [] => (None, fringe, this_path)
  | w :: ws' =>
      if backdoor && node_eqb w x then walk_to_parents_loop v ws' fringe this_path other_path
      else
        let (i, t) := w in
        if negb (mem w conds) && (t <=? 0) && (Z.abs t <=? max_lag) then
          let '(fringe1, this_path1) :=
            match nget this_path w with
            | None => (fringe ++ [(w, Some Tail)],
                       nset this_path w (mk_entry false (Some (v, Arrowhead)) None))
            | Some e =>
                if negb (match e_tail e with Some _ => true | None => false end)
                   && negb (e_none e)
                then (fringe ++ [(w, Some Tail)],
                      nset this_path w (mk_entry (e_none e) (Some (v, Arrowhead)) (e_arrowhead e)))
                else (fringe, this_path)
            end in
          if pin other_path w then (Some (w, Tail), fringe1, this_path1)
          else walk_to_parents_loop v ws' fringe1 this_path1 other_path
        else walk_to_parents_loop v ws' fringe this_path other_path
  end.

(** [_walk_to_parents(v, fringe, this_path, other_path)] *)
Definition _walk_to_parents (v : node) (fringe : fringe_t) (this_path other_path : pmap)
  : outcome (option (node * mark) * fringe_t * pmap) :=
  ws <- _get_lagged_parents links v false ;;
  Ok (walk_to_parents_loop v ws fringe this_path other_path).

(** Loop of [_walk_to_children] over the lagged children [ws] of [v]. *)
Fixpoint walk_to_children_loop (v : node) (ws : list node) (fringe : fringe_t)
    (this_path other_path : pmap) : option (node * mark) * fringe_t * pmap :=
  match ws with
  | [] => (None, fringe, this_path)
  | w :: ws' =>
      let (i, t) := w in
      if (t <=? 0) && (Z.abs t <=? max_lag) then
        let '(fringe1, this_path1) :=
          match nget this_path w with
          | None => (fringe ++ [(w, Some Arrowhead)],
                     nset this_path w (mk_entry false None (Some (v, Tail))))
          | Some e =>
              if negb (match e_arrowhead e with Some _ => true | None => false end)
                 && negb (e_none e)
              then (fringe ++ [(w, Some Arrowhead)],
                    nset this_path w (mk_entry (e_none e) (e_tail e) (Some (v, Tail))))
              else (fringe, this_path)
          end in
        let connected :=
          match nget other_path w with
          | Some e =>
              ((match e_tail e with Some _ => true | None => false end) && negb (mem w conds))
              || ((match e_arrowhead e with Some _ => true | None => false end) && mem w conds)
              || e_none e
          | None => false
          end in
        if connected then (Some (w, Arrowhead), fringe1, this_path1)
        else walk_to_children_loop v ws' fringe1 this_path1 other_path
      else walk_to_children_loop v ws' fringe this_path other_path
  end.

(** [_walk_to_children(v, fringe, this_path, other_path)] *)
Definition _walk_to_children (v : node) (fringe : fringe_t) (this_path other_path : pmap)
  : outcome (option (node * mark) * fringe_t * pmap) :=
  ws <- _get_lagged_children v children false ;;
  Ok (walk_to_children_loop v ws fringe this_path other_path).

(** Loop [for v, mark in this_level:] of [_walk_fringe]. *)
Fixpoint walk_fringe_loop (this_level : fringe_t) (fringe : fringe_t) (this_path other_path : pmap)
  : outcome (option (node * mark) * fringe_t * pmap) :=
  match this_level with
  | [] => Ok (None, fringe, this_path)
  | (v, mk) :: rest =>
      if mem v conds then
        match mk with
        | Some Arrowhead | None =>
            '(fc, fringe1, this_path1) <- _walk_to_parents v fringe this_path other_path ;;
            match fc with
            | Some _ => Ok (fc, fringe1, this_path1)
            | None => walk_fringe_loop rest fringe1 this_path1 other_path
            end
        | Some Tail => walk_fringe_loop rest fringe this_path other_path
        end
      else
        match mk with
        | Some Tail | None =>
            '(fc, fringe1, this_path1) <- _walk_to_parents v fringe this_path other_path ;;
            match fc with
            | Some _ => Ok (fc, fringe1, this_path1)
            | None =>
                '(fc2, fringe2, this_path2) <- _walk_to_children v fringe1 this_path1 other_path ;;
                match fc2 with
                | Some _ => Ok (fc2, fringe2, this_path2)
                | None => walk_fringe_loop rest fringe2 this_path2 other_path
                end
            end
        | Some Arrowhead =>
            '(fc, fringe1, this_path1) <- _walk_to_children v fringe this_path other_path ;;
            match fc with
            | Some _ => Ok (fc, fringe1, this_path1)
            | None => walk_fringe_loop rest fringe1 this_path1 other_path
            end
        end
  end.

Definition is_start_level (this_level : fringe_t) : bool :=
  match this_level with
  | [(v, None)] => node_eqb v x
  | _ => false
  end.

(** [_walk_fringe(this_level, fringe, this_path, other_path)]; the returned
    [other_path] is the argument, unchanged. *)
Definition _walk_fringe (this_level : fringe_t) (fringe : fringe_t) (this_path other_path : pmap)
  : outcome (option (node * mark) * fringe_t * pmap) :=
  if backdoor && is_start_level this_level then _walk_to_parents x fringe this_path other_path
  else walk_fringe_loop this_level fringe this_path other_path.

(** [while forward_fringe and reverse_fringe:] for one pair [(x, y)]; returns
    the connection found, if any, and the final [pred] and [succ]. *)
Fixpoint search_while (fuel : nat) (forward_fringe reverse_fringe : fringe_t) (pred succ : pmap)
  : outcome (option (node * mark) * pmap * pmap) :=
  match fuel with
  | O => OutOfFuel
  | S f =>
      match forward_fringe, reverse_fringe with
      | _ :: _, _ :: _ =>
          if (List.length forward_fringe <=? List.length reverse_fringe)%nat then
            '(fc, forward_fringe1, pred1) <- _walk_fringe forward_fringe [] pred succ ;;
            match fc with
            | Some _ => Ok (fc, pred1, succ)
            | None => search_while f forward_fringe1 reverse_fringe pred1 succ
            end
          else
            '(fc, reverse_fringe1, succ1) <- _walk_fringe reverse_fringe [] succ pred ;;
            match fc with
            | Some _ => Ok (fc, pred, succ1)
            | None => search_while f forward_fringe reverse_fringe1 pred succ1
            end
      | _, _ => Ok (None, pred, succ)
      end
  end.

Definition entry_get (e : entry) (mk : mark) : option (node * mark) :=
  match mk with Tail => e_tail e | Arrowhead => e_arrowhead e end.

Definition nm_eqb (a b : node * mark) : bool :=
  node_eqb (fst a) (fst b) && mark_eqb (snd a) (snd b).

(** One [while path[-1] != target:] loop of [backtrace_path], walking the
    map [m] ([pred] towards [x], or [succ] towards [y]) from [(nd, mk)]. *)
Fixpoint backtrace_while (fuel : nat) (m : pmap) (target : node) (path : list node)
    (nd : node) (mk : mark) : outcome (list node) :=
  match fuel with
  | O => OutOfFuel
  | S f =>
      if node_eqb (last path nd) target then Ok path
      else
        e <- pget_err m nd ;;
        match entry_get e mk with
        | None => Raise KeyError
        | Some (prev_node, prev_mark) =>
            mk' <- match prev_mark with
                   | Arrowhead => Ok (if negb (mem prev_node conds) then Tail else Arrowhead)
                   | Tail =>
                       ep <- pget_err m prev_node ;;
                       Ok (match e_tail ep with
                           | Some tv => if negb (nm_eqb tv (nd, mk)) then Tail else Arrowhead
                           | None => Arrowhead
                           end)
                   end ;;
            backtrace_while f m target (path ++ [prev_node]) prev_node mk'
        end
  end.

(** [backtrace_path()] for the connection [found_connection]. *)
Definition backtrace_path (fuel : nat) (y : node) (found_connection : node * mark)
    (pred succ : pmap) : outcome (list node) :=
  let w := fst found_connection in
  e <- pget_err pred w ;;
  path1 <- backtrace_while fuel pred x [w] w
             (match e_tail e with Some _ => Tail | None => Arrowhead end) ;;
  e2 <- pget_err succ w ;;
  backtrace_while fuel succ y (rev path1) w
    (match e_tail e2 with Some _ => Tail | None => Arrowhead end).

End Search.

(** [for y in Y:] for a fixed [x]. *)
Fixpoint has_path_over_Y (fuel : nat) (links : links_t) (children : children_t) (conds : list node)
    (max_lag : Z) (backdoor : bool) (x : node) (Y : list node) : outcome (option (list node)) :=
  match Y with
  | [] => Ok None
  | y :: Y' =>
      '(fc, pred, succ) <- search_while links children conds max_lag backdoor x fuel
                             [(x, None)] [(y, None)] [(x, start_entry)] [(y, start_entry)] ;;
      match fc with
      | Some c => path <- backtrace_path conds x fuel y c pred succ ;; Ok (Some path)
      | None => has_path_over_Y fuel links children conds max_lag backdoor x Y'
      end
  end.

(** [for x in X:] *)
Fixpoint has_path_over_X (fuel : nat) (links : links_t) (children : children_t) (conds : list node)
    (max_lag : Z) (backdoor : bool) (X Y : list node) : outcome (option (list node)) :=
  match X with
  | [] => Ok None
  | x :: X' =>
      r <- has_path_over_Y fuel links children conds max_lag backdoor x Y ;;
      match r with
      | Some p => Ok (Some p)
      | None => has_path_over_X fuel links children conds max_lag backdoor X' Y
      end
  end.

(** The conditioning list of the path search:
    [conds = [z for z in conds if z not in Y and z not in X]] followed by
    every selection variable at every lag [0 .. max_lag]. *)
Definition path_conds (selection_vars : list Z) (X Y conds : list node) (max_lag : Z) : list node :=
  filter (fun z => negb (mem z Y) && negb (mem z X)) conds ++ selection_nodes selection_vars max_lag.

(** [OracleCI._has_any_path]; [Some path] for a path, [None] for [False]. *)
Definition _has_any_path (fuel : nat) (links : links_t) (selection_vars : list Z)
    (X Y conds : list node) (max_lag : Z) (backdoor : bool) : outcome (option (list node)) :=
  let conds1 := path_conds selection_vars X Y conds max_lag in
  children <- _get_children links ;;
  has_path_over_X fuel links children conds1 max_lag backdoor X Y.

(** [OracleCI._is_dsep]: the new value of the attribute [self.max_lag]
    (when it is assigned) and the verdict. *)
Definition _is_dsep (fuel : nat) (links : links_t) (selection_vars : list Z)
    (X Y Z : list node) (max_lag : option BinNums.Z) : option BinNums.Z * outcome bool :=
  match (match max_lag with
         | Some m => Ok m
         | None => _get_max_lag_from_XYZ fuel links selection_vars X Y Z
         end) with
  | Ok ml =>
      (Some ml,
       any_path <- _has_any_path fuel links selection_vars X Y Z ml false ;;
       Ok (match any_path with Some (_ :: _) => false | _ => true end))
  | Raise e => (None, Raise e)
  | OutOfFuel => (None, OutOfFuel)
  end.

(** ** Query validation: [OracleCI._check_XYZ] *)

(** Deduplication and cross-filtering, the first lines of [_check_XYZ]. *)
Definition clean_XYZ (X Y Z : list node) : list node * list node * list node :=
  let X1 := dedup X in
  let Y1 := dedup Y in
  let Z1 := dedup Z in
  (X1, Y1, filter (fun n => negb (mem n X1) && negb (mem n Y1)) Z1).

(** [OracleCI._check_XYZ].  [np.array(XYZ).shape != (dim, 2)] can only hold
    for an empty [XYZ] (shape [(0,)]); for an empty [Y],
    [np.array(Y)[:, 1]] raises [IndexError]. *)
Definition _check_XYZ (N : BinNums.Z) (X Y Z : list node) : outcome (list node * list node * list node) :=
  let '(X1, Y1, Z1) := clean_XYZ X Y Z in
  let XYZ := X1 ++ Y1 ++ Z1 in
  match XYZ with
  | [] => Raise ValueError
  | _ :: _ =>
      if existsb (fun n => snd n >? 0) XYZ then Raise ValueError
      else if existsb (fun n => (fst n >=? N) || (fst n <? 0)) XYZ then Raise ValueError
      else match Y1 with
           | [] => Raise IndexError
           | _ :: _ => if forallb (fun n => negb (snd n =? 0)) Y1 then Raise ValueError
                       else Ok (X1, Y1, Z1)
           end
  end.

(** Python list indexing [l[i]], negative indices counting from the end. *)
Definition py_index (l : list BinNums.Z) (i : BinNums.Z) : outcome BinNums.Z :=
  let n := Z.of_nat (List.length l) in
  if (0 <=? i) && (i <? n) then Ok (nth (Z.to_nat i) l 0)
  else if (- n <=? i) && (i <? 0) then Ok (nth (Z.to_nat (n + i)) l 0)
  else Raise IndexError.

(** [[(self.observed_vars[x[0]], x[1]) for x in X]] *)
Fixpoint translate (observed_vars : list BinNums.Z) (X : list node) : outcome (list node) :=
  match X with
  | [] => Ok []
  | (v, lag) :: X' =>
      v' <- py_index observed_vars v ;;
      rest <- translate observed_vars X' ;;
      Ok ((v', lag) :: rest)
  end.

(** ** The oracle object *)

(** The memo key [str((X, Y, Z))] of the validated query. *)
Definition key : Type := (list node * list node * list node)%type.

Fixpoint nodes_eqb (a b : list node) : bool :=
  match a, b with
  | [], [] => true
  | n :: a', m :: b' => node_eqb n m && nodes_eqb a' b'
  | _, _ => false
  end.

Definition key_eqb (k1 k2 : key) : bool :=
  let '(X1, Y1, Z1) := k1 in
  let '(X2, Y2, Z2) := k2 in
  nodes_eqb X1 X2 && nodes_eqb Y1 Y2 && nodes_eqb Z1 Z2.

Fixpoint kget (d : list (key * bool)) (k : key) : option bool :=
  match d with
  | [] => None
  | (k', b) :: d' => if key_eqb k k' then Some b else kget d' k
  end.

(** The state of an [OracleCI] instance read or written by the modelled
    methods.  [dsep_calls] is instrumentation, not an attribute of the
    Python object: it counts the calls of [_is_dsep] made by [run_test]. *)
Record oracle := mk_oracle {
  links : links_t;
  observed_vars : list BinNums.Z;
  selection_vars : list BinNums.Z;
  dsepsets : list (key * bool);
  max_lag_attr : option BinNums.Z;
  dsep_calls : nat
}.

Definition oracle_N (o : oracle) : BinNums.Z := Z.of_nat (List.length (links o)).

(** The translation and validation at the start of [run_test]: the memo key. *)
Definition query_key (o : oracle) (X Y Z : list node) : outcome key :=
  X1 <- translate (observed_vars o) X ;;
  Y1 <- translate (observed_vars o) Y ;;
  Z1 <- translate (observed_vars o) Z ;;
  _check_XYZ (oracle_N o) X1 Y1 Z1.

(** [(val, pval)]: [(0., 1.)] for a d-separated query, else [(1., 0.)]. *)
Definition test_result (dseparated : bool) : Q * Q :=
  if dseparated then (0%Q, 1%Q) else (1%Q, 0%Q).

(** [OracleCI.run_test]; [tau_max] and [cut_off] are parameters of the
    source that its body never reads.  The oracle after the call is returned
    also when the call raises. *)
Definition run_test (fuel : nat) (o : oracle) (X Y Z : list node)
    (tau_max : BinNums.Z) (cut_off : string) : outcome (Q * Q) * oracle :=
  match query_key o X Y Z with
  | Raise e => (Raise e, o)
  | OutOfFuel => (OutOfFuel, o)
  | Ok k =>
      match kget (dsepsets o) k with
      | Some b => (Ok (test_result b), o)
      | None =>
          let '(X1, Y1, Z1) := k in
          let '(ml, r) := _is_dsep fuel (links o) (selection_vars o) X1 Y1 Z1 None in
          let o1 := mk_oracle (links o) (observed_vars o) (selection_vars o) (dsepsets o)
                      (match ml with Some m => Some m | None => max_lag_attr o end)
                      (S (dsep_calls o)) in
          match r with
          | Ok b => (Ok (test_result b),
                     mk_oracle (links o1) (observed_vars o1) (selection_vars o1)
                       (dsepsets o1 ++ [(k, b)]) (max_lag_attr o1) (dsep_calls o1))
          | Raise e => (Raise e, o1)
          | OutOfFuel => (OutOfFuel, o1)
          end
      end
  end.

(** [OracleCI.get_measure].  After the translation the body calls
    [_check_XYZ(X, Y, Z)] as a global name; the module defines no such
    global (only the method [self._check_XYZ]), so Python raises
    [NameError] there. *)
Definition get_measure (o : oracle) (X Y Z : list node) (tau_max : BinNums.Z)
  : outcome Q * oracle :=
  match (X1 <- translate (observed_vars o) X ;;
         Y1 <- translate (observed_vars o) Y ;;
         Z1 <- translate (observed_vars o) Z ;;
         Ok (X1, Y1, Z1)) with
  | Ok _ => (Raise NameError, o)
  | Raise e => (Raise e, o)
  | OutOfFuel => (OutOfFuel, o)
  end.

(** ** Graph compilation: [OracleCI.get_links_from_graph] *)

(** The [<U3] array [graph[i, j, tau]] of shape [(N, N, tau_max + 1)]. *)
Definition graph_t : Type := list (list (list string)).

Definition cell (graph : graph_t) (i j tau : BinNums.Z) : string :=
  nth (Z.to_nat tau) (nth (Z.to_nat j) (nth (Z.to_nat i) graph []) []) EmptyString.

Definition graph_N (graph : graph_t) : BinNums.Z := Z.of_nat (List.length graph).

Definition graph_T (graph : graph_t) : BinNums.Z :=
  Z.of_nat (List.length (nth 0 (nth 0 graph []) [])).

(** [OracleCI._reverse_patt] *)
Definition _reverse_patt (patt : string) : outcome string :=
  match patt with
  | EmptyString => Ok EmptyString
  | String left_mark (String middle_mark (String right_mark _)) =>
      let new_right_mark := if Ascii.eqb left_mark "<"%char then ">"%char else left_mark in
      let new_left_mark := if Ascii.eqb right_mark ">"%char then "<"%char else right_mark in
      Ok (String new_left_mark (String middle_mark (String new_right_mark EmptyString)))
  | _ => Raise IndexError
  end.

(** [zip( *np.where(graph))]: the nonempty cells in row-major order. *)
Definition where_cells (graph : graph_t) : list (BinNums.Z * BinNums.Z * BinNums.Z) :=
  flat_map (fun i =>
    flat_map (fun j =>
      flat_map (fun tau =>
          if String.eqb (cell graph i j tau) EmptyString then [] else [(i, j, tau)])
        (zrange (graph_T graph)))
      (zrange (graph_N graph)))
    (zrange (graph_N graph)).

(** The checks at the top of the loop body: [Ok true] when the cell goes on
    to the edge insertion, [Ok false] for [continue]. *)
Definition cell_action (graph : graph_t) (i j tau : BinNums.Z) : outcome bool :=
  if tau =? 0 then
    rev <- _reverse_patt (cell graph j i 0) ;;
    if negb (String.eqb (cell graph i j 0) rev) then Raise ValueError
    else if j >? i then Ok false
    else Ok true
  else if existsb (String.eqb (cell graph i j tau)) ["-->"; "<->"; "---"]%string then Ok true
  else Raise ValueError.

(** [links], [selection_vars] and [latent_index] during the loop. *)
Record gstate := mk_gstate {
  g_links : links_t;
  g_selection_vars : list BinNums.Z;
  latent_index : BinNums.Z
}.

(** The edge insertion of the loop body for [edge_type = graph[i, j, tau]]. *)
Definition insert_edge (st : gstate) (i j tau : BinNums.Z) (edge_type : string) : outcome gstate :=
  let links := g_links st in
  let k := latent_index st in
  if String.eqb edge_type "-->" then
    links1 <- dappend links j (LP2 i (- tau)) ;;
    Ok (mk_gstate links1 (g_selection_vars st) k)
  else if String.eqb edge_type "<--" then
    links1 <- dappend links i (LP2 j (- tau)) ;;
    Ok (mk_gstate links1 (g_selection_vars st) k)
  else if String.eqb edge_type "<->" then
    let links1 := dset links k [] in
    links2 <- dappend links1 i (LP2 k 0) ;;
    links3 <- dappend links2 j (LP2 k (- tau)) ;;
    Ok (mk_gstate links3 (g_selection_vars st) (k + 1))
  else if String.eqb edge_type "---" then
    let links1 := dset links k [] in
    let selection_vars := g_selection_vars st ++ [k] in
    links2 <- dappend links1 k (LP2 i (- tau)) ;;
    links3 <- dappend links2 k (LP2 j 0) ;;
    Ok (mk_gstate links3 selection_vars (k + 1))
  else Ok st.

(** The state before the loop: [links = {j: [] for j in observed_vars}],
    [selection_vars = []], [latent_index = N]. *)
Definition graph_init (graph : graph_t) : gstate :=
  mk_gstate (map (fun j => (j, [])) (zrange (graph_N graph))) [] (graph_N graph).

(** One iteration of [for i, j, tau in zip( *np.where(graph)):]. *)
Definition graph_step (graph : graph_t) (acc : outcome gstate)
    (c : BinNums.Z * BinNums.Z * BinNums.Z) : outcome gstate :=
  st <- acc ;;
  let '(i, j, tau) := c in
  proceed <- cell_action graph i j tau ;;
  if proceed then insert_edge st i j tau (cell graph i j tau) else Ok st.

Definition get_links_from_graph (graph : graph_t)
  : outcome (links_t * list BinNums.Z * list BinNums.Z) :=
  let observed_vars := zrange (graph_N graph) in
  st <- fold_left (graph_step graph) (where_cells graph) (Ok (graph_init graph)) ;;
  Ok (g_links st, observed_vars, g_selection_vars st).

(** Every key of [links] is below [latent_index]: the next latent or
    selection variable is a new key. *)
Definition latent_fresh (st : gstate) : Prop :=
  forall k, dhas (g_links st) k = true -> k < latent_index st.

(** The cells that pass the checks and reach the edge insertion. *)
Definition processed_cells (graph : graph_t) : outcome (list (BinNums.Z * BinNums.Z * BinNums.Z)) :=
  fold_left (fun acc c =>
      ps <- acc ;;
      let '(i, j, tau) := c in
      proceed <- cell_action graph i j tau ;;
      Ok (if proceed then ps ++ [c] else ps))
    (where_cells graph) (Ok []).

(** ** Construction: [OracleCI.__init__] *)

Fixpoint sorted_Z (l : list BinNums.Z) : bool :=
  match l with
  | a :: ((b :: _) as l') => (a <=? b) && sorted_Z l'
  | _ => true
  end.

Fixpoint nodup_Z (l : list BinNums.Z) : bool :=
  match l with
  | [] => true
  | a :: l' => negb (existsb (Z.eqb a) l') && nodup_Z l'
  end.

Definition valid_var_list (N : BinNums.Z) (l : list BinNums.Z) : bool :=
  forallb (fun v => (0 <=? v) && (v <? N)) l && sorted_Z l && nodup_Z l.

Definition OracleCI_init (links : option links_t) (observed_vars : option (list BinNums.Z))
    (selection_vars : option (list BinNums.Z)) (graph : option graph_t) : outcome oracle :=
  '(links1, observed1, selection1) <-
     match links with
     | Some l => Ok (l, observed_vars, selection_vars)
     | None =>
         match graph with
         | None => Raise ValueError
         | Some g => '(l, ov, sv) <- get_links_from_graph g ;; Ok (l, Some ov, Some sv)
         end
     end ;;
  let N := Z.of_nat (List.length links1) in
  observed2 <- match observed1 with
               | None => Ok (zrange N)
               | Some ov => if valid_var_list N ov then Ok ov else Raise ValueError
               end ;;
  selection2 <- match selection1 with
                | None => Ok []
                | Some sv => if valid_var_list N sv then Ok sv else Raise ValueError
                end ;;
  Ok (mk_oracle links1 observed2 selection2 [] None 0).

(** ** Sequences of queries *)

Definition kmem (k : key) (l : list key) : bool := existsb (key_eqb k) l.

(** The distinct keys of a list, first occurrences, in order. *)
Fixpoint kdedup_aux (seen : list key) (l : list key) : list key :=
  match l with
  | [] => []
  | k :: l' => if kmem k seen then kdedup_aux seen l' else k :: kdedup_aux (seen ++ [k]) l'
  end.
Definition kdedup (l : list key) : list key := kdedup_aux [] l.

(** The memo keys of the queries that pass the validation. *)
Definition ok_keys (o : oracle) (qs : list (list node * list node * list node)) : list key :=
  flat_map (fun q => let '(X, Y, Z) := q in
                     match query_key o X Y Z with Ok k => [k] | _ => [] end) qs.

(** Successive calls [run_test(X, Y, Z, tau_max, cut_off)] on one oracle. *)
Fixpoint run_seq (fuel : nat) (o : oracle) (qs : list (list node * list node * list node))
    (tau_max : BinNums.Z) (cut_off : string) : list (outcome (Q * Q)) * oracle :=
  match qs with
  | [] => ([], o)
  | (X, Y, Z) :: qs' =>
      let '(r, o1) := run_test fuel o X Y Z tau_max cut_off in
      let '(rs, o2) := run_seq fuel o1 qs' tau_max cut_off in
      (r :: rs, o2)
  end.

(** ** Paths: [OracleCI.get_shortest_path] *)

(** The attributes [self.max_lag], [self.anc_all_x], [self.anc_all_y] and
    [self.anc_all_z] as assigned by one call; [None] for an attribute the
    call does not assign. *)
Record path_attrs := mk_path_attrs {
  sp_max_lag : option BinNums.Z;
  anc_all_x : option (ndict (list node));
  anc_all_y : option (ndict (list node));
  anc_all_z : option (ndict (list node))
}.

Definition no_path_attrs : path_attrs := mk_path_attrs None None None None.

(** [[node for node in any_path if node[0] in self.observed_vars]] *)
Definition observed_nodes (observed_vars : list BinNums.Z) (path : list node) : list node :=
  filter (fun nd => existsb (Z.eqb (fst nd)) observed_vars) path.

(** [OracleCI.get_shortest_path]; [Ok None] is the source's [False]. *)
Definition get_shortest_path (fuel : nat) (o : oracle) (X Y Z : list node)
    (max_lag : option BinNums.Z) (compute_ancestors backdoor : bool)
  : outcome (option (list node)) * path_attrs :=
  match query_key o X Y Z with
  | Raise e => (Raise e, no_path_attrs)
  | OutOfFuel => (OutOfFuel, no_path_attrs)
  | Ok (X1, Y1, Z1) =>
      match (match max_lag with
             | Some m => Ok m
             | None => _get_max_lag_from_XYZ fuel (links o) (selection_vars o) X1 Y1 Z1
             end) with
      | Raise e => (Raise e, no_path_attrs)
      | OutOfFuel => (OutOfFuel, no_path_attrs)
      | Ok ml =>
          let attrs0 := mk_path_attrs (Some ml) None None None in
          match _has_any_path fuel (links o) (selection_vars o) X1 Y1 Z1 ml backdoor with
          | Raise e => (Raise e, attrs0)
          | OutOfFuel => (OutOfFuel, attrs0)
          | Ok any_path =>
              let any_path_observed :=
                match any_path with
                | Some ((_ :: _) as p) => Some (observed_nodes (observed_vars o) p)
                | _ => None
                end in
              if compute_ancestors then
                let anc V := _get_non_blocked_ancestors fuel (links o) (selection_vars o)
                               V (Some Z1) MaxLagMode (Some ml) in
                match anc X1 with
                | Raise e => (Raise e, attrs0)
                | OutOfFuel => (OutOfFuel, attrs0)
                | Ok (ax, _) =>
                    match anc Y1 with
                    | Raise e => (Raise e, mk_path_attrs (Some ml) (Some ax) None None)
                    | OutOfFuel => (OutOfFuel, mk_path_attrs (Some ml) (Some ax) None None)
                    | Ok (ay, _) =>
                        match anc Z1 with
                        | Raise e => (Raise e, mk_path_attrs (Some ml) (Some ax) (Some ay) None)
                        | OutOfFuel =>
                            (OutOfFuel, mk_path_attrs (Some ml) (Some ax) (Some ay) None)
                        | Ok (az, _) =>
                            (Ok any_path_observed,
                             mk_path_attrs (Some ml) (Some ax) (Some ay) (Some az))
                        end
                    end
                end
              else (Ok any_path_observed, attrs0)
          end
      end
  end.

(** ** Example inputs *)

(** A DAG on ten variables, all links contemporaneous:
    [0 -> 1], [1 -> 2], [1 -> 3], [3 -> 4], [2 -> 4], [5 -> 4], [6 -> 5],
    [7 -> 6], [8 -> 7], [9 -> 7].  Given [Z = [(4, 0)]] the path
    [0 -> 1 -> 3 -> 4 <- 5 <- 6 <- 7] is open (its only collider [4] is
    conditioned on), so [(0, 0)] and [(7, 0)] are d-connected. *)
Definition hang_links : links_t :=
  [(0, []); (1, [LP2 0 0]); (2, [LP2 1 0]); (3, [LP2 1 0]);
   (4, [LP2 3 0; LP2 2 0; LP2 5 0]); (5, [LP2 6 0]); (6, [LP2 7 0]);
   (7, [LP2 8 0; LP2 9 0]); (8, []); (9, [])].

Definition hang_oracle : oracle := mk_oracle hang_links (zrange 10) [] [] None 0.

(** The maps [pred] and [succ] when the search from [x = (0, 0)] and
    [y = (7, 0)] given [(4, 0)] meets at [((6, 0), 'tail')]. *)
Definition hang_pred : pmap :=
  [((0, 0), mk_entry true None None);
   ((1, 0), mk_entry false (Some ((3, 0), Arrowhead)) (Some ((0, 0), Tail)));
   ((2, 0), mk_entry false (Some ((4, 0), Arrowhead)) (Some ((1, 0), Tail)));
   ((3, 0), mk_entry false (Some ((4, 0), Arrowhead)) (Some ((1, 0), Tail)));
   ((4, 0), mk_entry false None (Some ((2, 0), Tail)));
   ((5, 0), mk_entry false (Some ((4, 0), Arrowhead)) None);
   ((6, 0), mk_entry false (Some ((5, 0), Arrowhead)) None)].

Definition hang_succ : pmap :=
  [((7, 0), mk_entry true None None);
   ((8, 0), mk_entry false (Some ((7, 0), Arrowhead)) None);
   ((9, 0), mk_entry false (Some ((7, 0), Arrowhead)) None);
   ((6, 0), mk_entry false None (Some ((7, 0), Tail)))].

(** Two variables without links. *)
Definition pair_oracle : oracle := mk_oracle [(0, []); (1, [])] [0; 1] [] [] None 0.

(** [graph[0, 1, 0] = '-->'], [graph[1, 0, 0] = '<--']. *)
Definition arrow_graph : graph_t :=
  [[[EmptyString]; ["-->"%string]]; [["<--"%string]; [EmptyString]]].

(** [graph[0, 1, 0] = graph[1, 0, 0] = '---']. *)
Definition selection_graph : graph_t :=
  [[[EmptyString]; ["---"%string]]; [["---"%string]; [EmptyString]]].

(** [1 -> 0] at lag 1, where [1] is a selection variable. *)
Definition lagged_selection_links : links_t := [(0, [LP2 1 (-1)]); (1, [])].

(** ** Predicates used by the proofs *)

(** A fuel-indexed computation that, once it has an answer, keeps that
    answer for every larger fuel. *)
Definition fuel_mono {A : Type} (F : nat -> outcome A) : Prop :=
  forall n m, (n <= m)%nat -> F n <> OutOfFuel -> F m = F n.

(** No node of [l] is in the conditioning list [conds]. *)
Definition outside (conds l : list node) : Prop := forall n, In n l -> mem n conds = false.

(** Whether the cell [c] reaches the edge insertion. *)
Definition action_true (graph : graph_t) (c : BinNums.Z * BinNums.Z * BinNums.Z) : bool :=
  let '(i, j, tau) := c in match cell_action graph i j tau with Ok b => b | _ => false end.

(** [children] of [hang_links], as [_get_children] computes it. *)
Definition hang_children : children_t :=
  [(0, [(1, 0)]); (1, [(2, 0); (3, 0)]); (2, [(4, 0)]); (3, [(4, 0)]); (4, []);
   (5, [(4, 0)]); (6, [(5, 0)]); (7, [(6, 0)]); (8, [(7, 0)]); (9, [(7, 0)])].

(** The index that Python's [l[v]] actually reads on a list of length
    [n]: a negative [v] in [[-n, 0)] counts from the end. *)
Definition py_norm (n v : BinNums.Z) : BinNums.Z :=
  if (- n <=? v) && (v <? 0) then v + n else v.

(** A query with every variable index replaced by the index it reads in
    [observed_vars]. *)
Definition norm_query (observed_vars : list BinNums.Z) (X : list node) : list node :=
  map (fun nd => (py_norm (Z.of_nat (List.length observed_vars)) (fst nd), snd nd)) X.

(** The value [children[i]] that [_get_children] is expected to build:
    [[(j, abs(tau)) for j in range(N) for ((i', tau), coeff) in links[j]
      if i' == i and coeff != 0]]. *)
Definition children_of (links : links_t) (i : BinNums.Z) : list (BinNums.Z * BinNums.Z) :=
  flat_map (fun j =>
      match dget links j with
      | Ok lps =>
          flat_map (fun lp =>
              let '(i', tau, coeff) := link_view lp in
              if (i' =? i) && negb (Qeq_bool coeff 0) then [(j, Z.abs tau)] else []) lps
      | _ => []
      end)
    (zrange (Z.of_nat (List.length links))).

(** The search state keeps its ancestors within its bound [max_lag]; in
    mode ['non_repeating'] the bound is nonnegative. *)
Definition anc_bounded (mode : anc_mode) (st : anc_state) : Prop :=
  (match mode with NonRepeating => 0 <= a_max_lag st | MaxLagMode => True end) /\
  forall n, In n (anc_y st) -> Z.abs (snd n) <= Z.abs (a_max_lag st).

(** How the bound evolves: it grows in mode ['non_repeating'] and is
    constant in mode ['max_lag']. *)
Definition anc_grows (mode : anc_mode) (m m' : BinNums.Z) : Prop :=
  match mode with NonRepeating => m <= m' | MaxLagMode => m' = m end.

(** Every entry of a links dict is a pair [(p, t)] with a parent index in
    [[0, L)] and a lag [t <= 0]. *)
Definition links_ok (L : BinNums.Z) (links : links_t) : Prop :=
  forall k lps lp, In (k, lps) links -> In lp lps ->
  exists p t, lp = LP2 p t /\ 0 <= p < L /\ t <= 0.

(** The shape of the state of [get_links_from_graph] on a graph with [N]
    variables: the keys of [links] are [0, ..., latent_index - 1], the
    entries are valid links, and [selection_vars] is strictly increasing
    within [[N, latent_index)]. *)
Definition graph_wf (N : BinNums.Z) (st : gstate) : Prop :=
  map fst (g_links st) = zrange (latent_index st) /\ 0 <= N <= latent_index st /\
  links_ok (latent_index st) (g_links st) /\
  StronglySorted Z.lt (g_selection_vars st) /\
  (forall s, In s (g_selection_vars st) -> N <= s < latent_index st).

(** The oracle of the graph [0 --> 1]: [links = {0: [], 1: [(0, 0)]}]. *)
Definition edge_oracle : oracle := mk_oracle [(0, []); (1, [LP2 0 0])] [0; 1] [] [] None 0.

(** * Proofs *)

(** ** Fuel *)

Lemma fuel_mono_const {A : Type} (v : outcome A) : fuel_mono (fun _ => v).
Proof. intros n m _ _. reflexivity. Qed.

Lemma fuel_mono_bind {A B : Type} (F : nat -> outcome A) (G : nat -> A -> outcome B) :
  fuel_mono F -> (forall a, fuel_mono (fun n => G n a)) ->
  fuel_mono (fun n => bind (F n) (G n)).
Proof.
  intros HF HG n m Hle Hn. simpl in *.
  destruct (F n) as [a|e|] eqn:E; simpl in Hn; try (exfalso; apply Hn; reflexivity).
  - rewrite (HF n m Hle) by (rewrite E; discriminate). rewrite E. simpl.
    apply (HG a n m Hle Hn).
  - rewrite (HF n m Hle) by (rewrite E; discriminate). rewrite E. reflexivity.
Qed.

Lemma fold_left_bind_OutOfFuel {A B : Type} (f : A -> B -> outcome A) l :
  fold_left (fun acc b => a <- acc ;; f a b) l OutOfFuel = OutOfFuel.
Proof. induction l; simpl; auto. Qed.

Lemma fold_left_bind_Raise {A B : Type} (f : A -> B -> outcome A) l e :
  fold_left (fun acc b => a <- acc ;; f a b) l (Raise e) = Raise e.
Proof. induction l; simpl; auto. Qed.

Lemma fuel_mono_fold {A B : Type} (F : nat -> A -> B -> outcome A) :
  (forall a b, fuel_mono (fun n => F n a b)) ->
  forall l (acc : nat -> outcome A), fuel_mono acc ->
  fuel_mono (fun n => fold_left (fun acc b => a <- acc ;; F n a b) l (acc n)).
Proof.
  intros HF l. induction l as [|b l IH]; intros acc Hacc; simpl.
  - exact Hacc.
  - apply (IH (fun n => a <- acc n ;; F n a b)).
    apply fuel_mono_bind; [exact Hacc | intro a; apply HF].
Qed.

(** A computation that keeps its answer either has not finished or has the
    answer it has at any fuel where it finished. *)
Lemma fuel_mono_converges {A : Type} (F : nat -> outcome A) K v :
  fuel_mono F -> F K = v -> v <> OutOfFuel -> forall n, F n = OutOfFuel \/ F n = v.
Proof.
  intros HF HK Hv n. destruct (Nat.le_ge_cases n K) as [Hle|Hge].
  - destruct (F n) eqn:E; try (left; reflexivity);
      right; rewrite <- E; rewrite <- (HF n K Hle) by (rewrite E; discriminate); exact HK.
  - right. rewrite (HF K n Hge) by (rewrite HK; exact Hv). exact HK.
Qed.

Lemma anc_while_mono links mode conds this_level st :
  fuel_mono (fun n => anc_while n links mode conds this_level st).
Proof.
  intros n. revert this_level st. induction n as [|n IH]; intros this_level st m Hle Hn.
  - exfalso. apply Hn. reflexivity.
  - destruct m as [|m]; [lia|]. simpl in *.
    destruct this_level as [|v lv]; [reflexivity|].
    destruct (anc_level _ _ _ _ _) as [st1|e|]; simpl in *; try reflexivity.
    apply IH; [lia | exact Hn].
Qed.

Lemma _get_non_blocked_ancestors_mono links sel Y conds mode ml :
  fuel_mono (fun n => _get_non_blocked_ancestors n links sel Y conds mode ml).
Proof.
  unfold _get_non_blocked_ancestors.
  apply fuel_mono_bind; [apply fuel_mono_const|]. intros m0.
  apply (fuel_mono_fold (fun n a y => anc_for_y n links mode _ a y)); [|apply fuel_mono_const].
  intros [ancestors ml0] [j tau]. unfold anc_for_y.
  apply fuel_mono_bind; [apply anc_while_mono | intros; apply fuel_mono_const].
Qed.

Lemma _get_max_lag_from_XYZ_mono links sel X Y Z :
  fuel_mono (fun n => _get_max_lag_from_XYZ n links sel X Y Z).
Proof.
  unfold _get_max_lag_from_XYZ.
  apply fuel_mono_bind; [apply _get_non_blocked_ancestors_mono|]. intros [? a].
  apply fuel_mono_bind; [apply _get_non_blocked_ancestors_mono|]. intros [? b].
  apply fuel_mono_bind; [apply _get_non_blocked_ancestors_mono|]. intros [? c].
  apply fuel_mono_const.
Qed.

Lemma search_while_mono links children conds max_lag backdoor x ff rf pred succ :
  fuel_mono (fun n => search_while links children conds max_lag backdoor x n ff rf pred succ).
Proof.
  intros n. revert ff rf pred succ. induction n as [|n IH]; intros ff rf pred succ m Hle Hn.
  - exfalso. apply Hn. reflexivity.
  - destruct m as [|m]; [lia|]. simpl in *.
    destruct ff as [|f1 ff']; [reflexivity|]. destruct rf as [|r1 rf']; [reflexivity|].
    destruct (_ <=? _)%nat.
    + destruct (_walk_fringe _ _ _ _ _ _ _ _ _ _) as [[[fc ff1] pred1]|e|]; simpl in *; try reflexivity.
      destruct fc; [reflexivity|]. apply IH; [lia|exact Hn].
    + destruct (_walk_fringe _ _ _ _ _ _ _ _ _ _) as [[[fc rf1] succ1]|e|]; simpl in *; try reflexivity.
      destruct fc; [reflexivity|]. apply IH; [lia|exact Hn].
Qed.

(** ** The query [(0, 0)], [(7, 0)] given [(4, 0)] on [hang_links] *)

(** From [((4, 0), 'arrowhead')] the walk back to [x] visits
    [((2, 0), 'arrowhead')], [((1, 0), 'tail')], [((3, 0), 'tail')] and comes
    back to [((4, 0), 'arrowhead')], appending to [path] at each step. *)
Lemma hang_cycle : forall n p,
  backtrace_while [(4, 0)] n hang_pred (0, 0) (p ++ [(4, 0)]) (4, 0) Arrowhead = OutOfFuel /\
  backtrace_while [(4, 0)] n hang_pred (0, 0) (p ++ [(2, 0)]) (2, 0) Arrowhead = OutOfFuel /\
  backtrace_while [(4, 0)] n hang_pred (0, 0) (p ++ [(1, 0)]) (1, 0) Tail = OutOfFuel /\
  backtrace_while [(4, 0)] n hang_pred (0, 0) (p ++ [(3, 0)]) (3, 0) Tail = OutOfFuel.
Proof.
  induction n as [|n IH]; intro p; [repeat split; reflexivity|].
  repeat split; cbn [backtrace_while]; rewrite last_last; simpl; apply IH.
Qed.

Lemma hang_backtrace : forall n,
  backtrace_path [(4, 0)] (0, 0) n (7, 0) ((6, 0), Tail) hang_pred hang_succ = OutOfFuel.
Proof.
  intro n. unfold backtrace_path. simpl pget_err. cbn [bind].
  destruct n as [|[|[|n]]]; try reflexivity.
  cbn [backtrace_while]. simpl.
  destruct (hang_cycle n [(6, 0); (5, 0); (4, 0)]) as [_ [H _]].
  match goal with |- bind ?m _ = _ => replace m with (@OutOfFuel (list node)) end;
    [reflexivity | ..]; symmetry; exact H.
Qed.

Lemma hang_get_children : _get_children hang_links = Ok hang_children.
Proof. vm_compute. reflexivity. Qed.

Lemma hang_search : forall n,
  search_while hang_links hang_children [(4, 0)] 0 false (0, 0) n
    [((0, 0), None)] [((7, 0), None)] [((0, 0), start_entry)] [((7, 0), start_entry)]
  = OutOfFuel \/
  search_while hang_links hang_children [(4, 0)] 0 false (0, 0) n
    [((0, 0), None)] [((7, 0), None)] [((0, 0), start_entry)] [((7, 0), start_entry)]
  = Ok (Some ((6, 0), Tail), hang_pred, hang_succ).
Proof.
  apply (fuel_mono_converges _ 20);
    [apply search_while_mono | vm_compute; reflexivity | discriminate].
Qed.

Lemma hang_max_lag : forall n,
  _get_max_lag_from_XYZ n hang_links [] [(0, 0)] [(7, 0)] [(4, 0)] = OutOfFuel \/
  _get_max_lag_from_XYZ n hang_links [] [(0, 0)] [(7, 0)] [(4, 0)] = Ok 0.
Proof.
  apply (fuel_mono_converges _ 20);
    [apply _get_max_lag_from_XYZ_mono | vm_compute; reflexivity | discriminate].
Qed.

Lemma hang_run_test : forall fuel tau_max cut_off,
  fst (run_test fuel hang_oracle [(0, 0)] [(7, 0)] [(4, 0)] tau_max cut_off) = OutOfFuel.
Proof.
  intros fuel tau_max cut_off. unfold run_test.
  replace (query_key hang_oracle [(0, 0)] [(7, 0)] [(4, 0)])
    with (@Ok key (([(0, 0)] : list node), ([(7, 0)] : list node), ([(4, 0)] : list node)))
    by (vm_compute; reflexivity).
  cbn [kget dsepsets hang_oracle]. unfold _is_dsep. cbn [links selection_vars hang_oracle].
  destruct (hang_max_lag fuel) as [-> | ->]; [reflexivity|].
  unfold _has_any_path. rewrite hang_get_children.
  replace (path_conds [] [(0, 0)] [(7, 0)] [(4, 0)] 0) with ([(4, 0)] : list node)
    by reflexivity.
  cbn [bind has_path_over_X has_path_over_Y].
  destruct (hang_search fuel) as [E | E];
    match goal with |- context [search_while ?a ?b ?c ?d ?e ?f fuel ?g ?h ?i ?j] =>
      rewrite (E : search_while a b c d e f fuel g h i j = _) end; [reflexivity|].
  cbn [bind]. rewrite hang_backtrace. reflexivity.
Qed.

(** ** The memo cache *)

Lemma node_eqb_refl (a : node) : node_eqb a a = true.
Proof. destruct a. unfold node_eqb. simpl. rewrite !Z.eqb_refl. reflexivity. Qed.

Lemma nodes_eqb_refl (l : list node) : nodes_eqb l l = true.
Proof. induction l; simpl; [reflexivity|]. rewrite node_eqb_refl, IHl. reflexivity. Qed.

Lemma key_eqb_refl (k : key) : key_eqb k k = true.
Proof. destruct k as [[X Y] Z]. unfold key_eqb. rewrite !nodes_eqb_refl. reflexivity. Qed.

Lemma kget_app_new d k b :
  kget d k = None -> kget (d ++ [(k, b)]) k = Some b.
Proof.
  induction d as [|[k' b'] d IH]; simpl; intro H.
  - rewrite key_eqb_refl. reflexivity.
  - destruct (key_eqb k k'); [discriminate|]. apply IH, H.
Qed.

Lemma kget_Some_kmem d k b : kget d k = Some b -> kmem k (map fst d) = true.
Proof.
  induction d as [|[k' b'] d IH]; simpl; intro H; [discriminate|].
  unfold kmem in *. simpl. destruct (key_eqb k k'); [reflexivity|]. apply IH, H.
Qed.

Lemma kget_None_kmem d k : kget d k = None -> kmem k (map fst d) = false.
Proof.
  induction d as [|[k' b'] d IH]; simpl; intro H; [reflexivity|].
  unfold kmem in *. simpl. destruct (key_eqb k k'); [discriminate|]. apply IH, H.
Qed.

Lemma query_key_frame o o' X Y Z :
  links o' = links o -> observed_vars o' = observed_vars o ->
  query_key o' X Y Z = query_key o X Y Z.
Proof. intros Hl Ho. unfold query_key, oracle_N. rewrite Hl, Ho. reflexivity. Qed.

Lemma run_test_Ok_step fuel o X Y Z tau_max cut_off r o1 :
  run_test fuel o X Y Z tau_max cut_off = (Ok r, o1) ->
  exists k, query_key o X Y Z = Ok k /\
    links o1 = links o /\ observed_vars o1 = observed_vars o /\
    selection_vars o1 = selection_vars o /\
    ((exists b, kget (dsepsets o) k = Some b /\ r = test_result b /\ o1 = o) \/
     (kget (dsepsets o) k = None /\ exists b, r = test_result b
      /\ dsepsets o1 = dsepsets o ++ [(k, b)] /\ dsep_calls o1 = S (dsep_calls o))).
Proof.
  unfold run_test. intro H.
  destruct (query_key o X Y Z) as [k|e|] eqn:Eq; try discriminate.
  exists k. split; [reflexivity|].
  destruct (kget (dsepsets o) k) as [b|] eqn:Ek.
  - injection H as <- <-. repeat split; auto. left. exists b. auto.
  - destruct k as [[X1 Y1] Z1].
    destruct (_is_dsep _ _ _ _ _ _ _) as [ml [b|e|]]; try discriminate.
    injection H as <- <-. simpl. repeat split; auto. right. split; [reflexivity|].
    exists b. auto.
Qed.

Lemma ok_keys_frame o o' qs :
  links o' = links o -> observed_vars o' = observed_vars o -> ok_keys o' qs = ok_keys o qs.
Proof.
  intros Hl Ho. unfold ok_keys. apply flat_map_ext. intros [[X Y] Z].
  rewrite (query_key_frame o o' X Y Z Hl Ho). reflexivity.
Qed.

Lemma run_seq_counts fuel tau_max cut_off : forall qs o rs o',
  run_seq fuel o qs tau_max cut_off = (rs, o') ->
  Forall (fun r => exists v, r = Ok v) rs ->
  links o' = links o /\ observed_vars o' = observed_vars o /\
  map fst (dsepsets o') = map fst (dsepsets o) ++ kdedup_aux (map fst (dsepsets o)) (ok_keys o qs) /\
  dsep_calls o' = (dsep_calls o + List.length (kdedup_aux (map fst (dsepsets o)) (ok_keys o qs)))%nat.
Proof.
  induction qs as [|[[X Y] Z] qs IH]; intros o rs o' Hrun Hok.
  - simpl in Hrun. injection Hrun as <- <-. simpl. rewrite app_nil_r. repeat split; auto; lia.
  - simpl in Hrun.
    destruct (run_test fuel o X Y Z tau_max cut_off) as [r o1] eqn:E1.
    destruct (run_seq fuel o1 qs tau_max cut_off) as [rs' o2] eqn:E2.
    injection Hrun as <- <-. inversion Hok as [|? ? [v ->] Hok']; subst.
    destruct (run_test_Ok_step _ _ _ _ _ _ _ _ _ E1) as [k [Hk [Hl [Hov [_ Hcase]]]]].
    destruct (IH o1 rs' o2 E2 Hok') as [Hl' [Hov' [Hd' Hc']]].
    rewrite (ok_keys_frame o o1 qs Hl Hov) in Hd', Hc'.
    unfold ok_keys in *. simpl. rewrite Hk. simpl. fold (ok_keys o qs) in *.
    rewrite Hl', Hov', Hl, Hov. split; [reflexivity|]. split; [reflexivity|].
    destruct Hcase as [[b [Hget [_ ->]]] | [Hget [b [_ [Hd Hc]]]]].
    + rewrite (kget_Some_kmem _ _ _ Hget). split; assumption.
    + rewrite (kget_None_kmem _ _ Hget). rewrite Hd, map_app in Hd'. rewrite Hd, map_app in Hc'.
      simpl in Hd', Hc'. rewrite Hd', Hc', Hc, <- app_assoc. simpl. split; [reflexivity | lia].
Qed.

Lemma run_test_cached fuel o X Y Z tau_max cut_off r o1 :
  run_test fuel o X Y Z tau_max cut_off = (Ok r, o1) ->
  forall fuel' tau_max' cut_off', run_test fuel' o1 X Y Z tau_max' cut_off' = (Ok r, o1).
Proof.
  intros H fuel' tau_max' cut_off'.
  destruct (run_test_Ok_step _ _ _ _ _ _ _ _ _ H) as [k [Hk [Hl [Hov [_ Hcase]]]]].
  unfold run_test. rewrite (query_key_frame o o1 X Y Z Hl Hov), Hk.
  destruct Hcase as [[b [Hget [-> ->]]] | [Hget [b [-> [Hd _]]]]].
  - rewrite Hget. reflexivity.
  - rewrite Hd, (kget_app_new _ _ _ Hget). reflexivity.
Qed.

(** ** The ancestor search avoids its conditioning list *)

Lemma anc_visit_outside mode conds varlag st par :
  outside conds (anc_y st) -> outside conds (anc_y (anc_visit mode conds varlag st par)).
Proof.
  intro H. unfold anc_visit. destruct par as [i tau].
  destruct (mem (i, tau) conds) eqn:Em; simpl; [exact H|].
  destruct (negb (mem (i, tau) (anc_y st))); simpl; [|exact H].
  destruct (_ || _); simpl; [|exact H].
  intros n Hn. apply in_app_or in Hn as [Hn|[<-|[]]]; auto.
Qed.

Lemma anc_level_outside links mode conds this_level : forall st st',
  anc_level links mode conds this_level st = Ok st' ->
  outside conds (anc_y st) -> outside conds (anc_y st').
Proof.
  unfold anc_level. intros st st' H Hst.
  assert (Hgen : forall acc, (forall s, acc = Ok s -> outside conds (anc_y s)) ->
    fold_left (fun acc varlag =>
      st1 <- acc ;; pars <- _get_lagged_parents links varlag false ;;
      Ok (fold_left (anc_visit mode conds varlag) pars st1)) this_level acc = Ok st' ->
    outside conds (anc_y st')).
  { clear H. induction this_level as [|v l IH]; intros acc Hacc Hf; simpl in Hf.
    - apply Hacc, Hf.
    - refine (IH _ _ Hf). intros s Hs.
      destruct acc as [s1|e|]; try discriminate. simpl in Hs.
      destruct (_get_lagged_parents links v false) as [pars|e|]; try discriminate.
      injection Hs as <-. specialize (Hacc s1 eq_refl).
      clear -Hacc. revert s1 Hacc. induction pars; intros; simpl; auto.
      apply IHpars, anc_visit_outside, Hacc. }
  apply (Hgen (Ok st)); [intros s Hs; injection Hs as <-; exact Hst | exact H].
Qed.

Lemma anc_while_outside links mode conds : forall fuel this_level st st',
  anc_while fuel links mode conds this_level st = Ok st' ->
  outside conds (anc_y st) -> outside conds (anc_y st').
Proof.
  induction fuel as [|fuel IH]; intros this_level st st' H Hst; simpl in H; [discriminate|].
  destruct this_level as [|v l]; [injection H as <-; exact Hst|].
  destruct (anc_level _ _ _ _ _) as [st1|e|] eqn:E; try discriminate. simpl in H.
  apply (IH _ _ _ H). apply (anc_level_outside _ _ _ _ _ _ E). exact Hst.
Qed.

Lemma nget_app {A : Type} (d : ndict A) k v y l :
  nget (d ++ [(k, v)]) y = Some l -> nget d y = Some l \/ l = v.
Proof.
  induction d as [|[k' v'] d IH]; simpl; intro H.
  - destruct (node_eqb y k); [injection H; auto | discriminate].
  - destruct (node_eqb y k'); [left; exact H | apply IH, H].
Qed.

Lemma nget_nset_aux {A : Type} (d : ndict A) k v y l :
  nget (nset_aux d k v) y = Some l -> nget d y = Some l \/ l = v.
Proof.
  induction d as [|[k' v'] d IH]; simpl; intro H; [discriminate|].
  destruct (node_eqb k k') eqn:Ekk; simpl in H.
  - destruct (node_eqb y k'); [injection H; auto | left; exact H].
  - destruct (node_eqb y k'); [left; exact H | apply IH, H].
Qed.

Lemma nget_nset {A : Type} (d : ndict A) k v y l :
  nget (nset d k v) y = Some l -> nget d y = Some l \/ l = v.
Proof.
  unfold nset. destruct (nget d k); [apply nget_nset_aux | apply nget_app].
Qed.

Lemma ancestors_outside fuel links sel Y conds ml anc m :
  _get_non_blocked_ancestors fuel links sel Y conds NonRepeating ml = Ok (anc, m) ->
  forall y l, nget anc y = Some l ->
  outside (anc_conds sel Y (match conds with None => [] | Some c => c end) 0) l.
Proof.
  unfold _get_non_blocked_ancestors. simpl.
  set (conds1 := anc_conds sel Y _ 0). intro H.
  set (Inv := fun (d : ndict (list node)) => forall y l, nget d y = Some l -> outside conds1 l).
  assert (Hgen : forall Ys acc, (forall a, acc = Ok a -> Inv (fst a)) ->
    fold_left (fun acc y => a <- acc ;; anc_for_y fuel links NonRepeating conds1 a y) Ys acc
      = Ok (anc, m) -> Inv anc).
  { clear H. intro Ys. induction Ys as [|y0 Y' IH]; intros acc Hacc Hf; simpl in Hf.
    - exact (Hacc _ Hf).
    - refine (IH _ _ Hf). intros [d mm] Ha.
      destruct acc as [[d0 m0]|e|]; try discriminate. simpl in Ha.
      specialize (Hacc _ eq_refl). simpl in Hacc. unfold anc_for_y in Ha. destruct y0 as [j tau].
      destruct (anc_while _ _ _ _ _ _) as [st|e|] eqn:Ew; try discriminate.
      injection Ha as <- <-. simpl. intros y l Hy.
      destruct (nget_nset _ _ _ _ _ Hy) as [Hy' | ->]; [exact (Hacc _ _ Hy')|].
      apply (anc_while_outside _ _ _ _ _ _ _ Ew). simpl.
      destruct (nget d0 (j, tau)) as [l0|] eqn:E0; [exact (Hacc _ _ E0) | intros n []]. }
  refine (Hgen _ _ _ H). intros a Ha. injection Ha as <-. simpl.
  intros y l Hy. clear -Hy. induction (dedup Y) as [|y0 Y' IH]; simpl in Hy; [discriminate|].
  destruct (node_eqb y y0); [injection Hy as <-; intros n []| apply IH, Hy].
Qed.

(** ** Graph compilation *)

Lemma mem_In (a : node) l : In a l -> mem a l = true.
Proof.
  intro H. unfold mem. apply existsb_exists. exists a. split; [exact H | apply node_eqb_refl].
Qed.

Lemma In_zrange t n : 0 <= t < n -> In t (zrange n).
Proof.
  intro H. unfold zrange. apply in_map_iff. exists (Z.to_nat t). split; [lia|].
  apply in_seq. lia.
Qed.

Lemma In_selection_nodes sel ml s t :
  In s sel -> 0 <= t <= ml -> In (s, - t) (selection_nodes sel ml).
Proof.
  intros Hs Ht. unfold selection_nodes. apply in_flat_map. exists s. split; [exact Hs|].
  apply in_map_iff. exists t. split; [reflexivity|]. apply In_zrange. lia.
Qed.

Lemma dget_app_fresh {A : Type} (d : zdict A) k v :
  dhas d k = false -> dget (d ++ [(k, v)]) k = Ok v.
Proof.
  induction d as [|[k' v'] d IH]; simpl; intro H.
  - rewrite Z.eqb_refl. reflexivity.
  - apply orb_false_iff in H as [H1 H2]. rewrite H1. apply IH, H2.
Qed.

Lemma dset_app_fresh {A : Type} (d : zdict A) k v v' :
  dhas d k = false -> dset (d ++ [(k, v)]) k v' = d ++ [(k, v')].
Proof.
  intro H. unfold dset.
  assert (Hh : dhas (d ++ [(k, v)]) k = true).
  { clear H. induction d as [|[k' v''] d IH]; simpl; [rewrite Z.eqb_refl; reflexivity|].
    rewrite IH. apply orb_true_r. }
  rewrite Hh. clear Hh. induction d as [|[k' v''] d IH]; simpl in *.
  - rewrite Z.eqb_refl. reflexivity.
  - apply orb_false_iff in H as [H1 H2]. rewrite H1. rewrite IH by exact H2. reflexivity.
Qed.

Lemma insert_edge_selection st i j tau :
  dhas (g_links st) (latent_index st) = false ->
  insert_edge st i j tau "---" =
  Ok (mk_gstate (g_links st ++ [(latent_index st, [LP2 i (- tau); LP2 j 0])])
        (g_selection_vars st ++ [latent_index st]) (latent_index st + 1)).
Proof.
  intro H. unfold insert_edge. simpl.
  unfold dset at 1. rewrite H.
  unfold dappend. rewrite (dget_app_fresh _ _ _ H). simpl.
  rewrite (dset_app_fresh _ _ _ _ H).
  rewrite (dget_app_fresh _ _ _ H). simpl.
  rewrite (dset_app_fresh _ _ _ _ H). reflexivity.
Qed.

Lemma dhas_dset_aux {A : Type} (d : zdict A) k v k' : dhas (dset_aux d k v) k' = dhas d k'.
Proof.
  induction d as [|[k1 v1] d IH]; simpl; [reflexivity|].
  destruct (k =? k1); simpl; [reflexivity|]. rewrite IH. reflexivity.
Qed.

Lemma dhas_app {A : Type} (d : zdict A) k v k' : dhas (d ++ [(k, v)]) k' = dhas d k' || (k' =? k).
Proof.
  induction d as [|[k1 v1] d IH]; simpl; [apply orb_false_r|]. rewrite IH, orb_assoc. reflexivity.
Qed.

Lemma dhas_dset {A : Type} (d : zdict A) k v k' :
  dhas (dset d k v) k' = true -> dhas d k' = true \/ k' = k.
Proof.
  unfold dset. destruct (dhas d k).
  - rewrite dhas_dset_aux. auto.
  - rewrite dhas_app. intro H. apply orb_true_iff in H as [H|H]; [auto | right; lia].
Qed.

Lemma dget_dhas {A : Type} (d : zdict A) k v : dget d k = Ok v -> dhas d k = true.
Proof.
  induction d as [|[k1 v1] d IH]; simpl; intro H; [discriminate|].
  destruct (k =? k1); [reflexivity|]. rewrite (IH H). apply orb_true_r.
Qed.

Lemma dhas_dappend {A : Type} (d d' : zdict (list A)) k x k' :
  dappend d k x = Ok d' -> dhas d' k' = dhas d k'.
Proof.
  unfold dappend. destruct (dget d k) as [v|e|] eqn:E; simpl; intro H; try discriminate.
  injection H as <-. unfold dset. rewrite (dget_dhas _ _ _ E). apply dhas_dset_aux.
Qed.

Lemma insert_edge_fresh st i j tau edge_type st' :
  latent_fresh st -> insert_edge st i j tau edge_type = Ok st' -> latent_fresh st'.
Proof.
  unfold latent_fresh, insert_edge. intros Hf H.
  destruct (String.eqb edge_type "-->").
  { destruct (dappend _ _ _) as [l1|e|] eqn:E1; simpl in H; try discriminate.
    injection H as <-. simpl. intros k Hk. rewrite (dhas_dappend _ _ _ _ _ E1) in Hk. auto. }
  destruct (String.eqb edge_type "<--").
  { destruct (dappend _ _ _) as [l1|e|] eqn:E1; simpl in H; try discriminate.
    injection H as <-. simpl. intros k Hk. rewrite (dhas_dappend _ _ _ _ _ E1) in Hk. auto. }
  destruct (String.eqb edge_type "<->").
  { destruct (dappend _ i _) as [l2|e|] eqn:E2; simpl in H; try discriminate.
    destruct (dappend l2 j _) as [l3|e|] eqn:E3; simpl in H; try discriminate.
    injection H as <-. simpl. intros k Hk.
    rewrite (dhas_dappend _ _ _ _ _ E3), (dhas_dappend _ _ _ _ _ E2) in Hk.
    destruct (dhas_dset _ _ _ _ Hk) as [Hk' | ->]; [specialize (Hf _ Hk')|]; lia. }
  destruct (String.eqb edge_type "---").
  { destruct (dappend _ (latent_index st) (LP2 i (- tau))) as [l2|e|] eqn:E2; simpl in H; try discriminate.
    destruct (dappend l2 _ _) as [l3|e|] eqn:E3; simpl in H; try discriminate.
    injection H as <-. simpl. intros k Hk.
    rewrite (dhas_dappend _ _ _ _ _ E3), (dhas_dappend _ _ _ _ _ E2) in Hk.
    destruct (dhas_dset _ _ _ _ Hk) as [Hk' | ->]; [specialize (Hf _ Hk')|]; lia. }
  injection H as <-. exact Hf.
Qed.

Lemma graph_init_fresh graph : latent_fresh (graph_init graph).
Proof.
  unfold latent_fresh, graph_init. simpl. intro k.
  assert (Hgen : forall l, (forall t, In t l -> t < graph_N graph) ->
    dhas (map (fun j => (j, @nil link_props)) l) k = true -> k < graph_N graph).
  { induction l as [|t l IH]; simpl; intros Hl Hk; [discriminate|].
    apply orb_true_iff in Hk as [Hk|Hk]; [apply Z.eqb_eq in Hk; subst; auto | auto]. }
  apply Hgen. intros t Ht. unfold zrange in Ht. apply in_map_iff in Ht as [n [<- Hn]].
  apply in_seq in Hn. unfold graph_N in *. lia.
Qed.

Lemma graph_fold_fresh graph : forall pre acc st,
  (forall s, acc = Ok s -> latent_fresh s) ->
  fold_left (graph_step graph) pre acc = Ok st -> latent_fresh st.
Proof.
  induction pre as [|[[i j] tau] pre IH]; simpl; intros acc st Hacc H; [exact (Hacc _ H)|].
  refine (IH _ _ _ H). intros s Hs. unfold graph_step in Hs.
  destruct acc as [s0|e|]; try discriminate. simpl in Hs.
  destruct (cell_action graph i j tau) as [[]|e|]; simpl in Hs; try discriminate.
  - exact (insert_edge_fresh _ _ _ _ _ _ (Hacc _ eq_refl) Hs).
  - injection Hs as <-. exact (Hacc _ eq_refl).
Qed.

Lemma processed_cells_filter graph : forall l ps0 ps,
  fold_left (fun acc c =>
      ps <- acc ;;
      let '(i, j, tau) := c in
      proceed <- cell_action graph i j tau ;;
      Ok (if proceed then ps ++ [c] else ps)) l (Ok ps0) = Ok ps ->
  (forall i j tau, In (i, j, tau) l -> exists b, cell_action graph i j tau = Ok b) /\
  ps = ps0 ++ filter (action_true graph) l.
Proof.
  induction l as [|[[i j] tau] l IH]; simpl; intros ps0 ps H.
  - injection H as <-. rewrite app_nil_r. split; [intros ? ? ? []|reflexivity].
  - destruct (cell_action graph i j tau) as [b|e|] eqn:E; simpl in H.
    + destruct (IH _ _ H) as [Hall ->]. split.
      * intros i' j' tau' [Heq|Hin]; [injection Heq as <- <- <-; eauto | eauto].
      * destruct b; simpl; [rewrite <- app_assoc; reflexivity | reflexivity].
    + rewrite fold_left_bind_Raise in H. discriminate.
    + rewrite fold_left_bind_OutOfFuel in H. discriminate.
Qed.

Lemma NoDup_zrange n : NoDup (zrange n).
Proof.
  unfold zrange. generalize (seq_NoDup (Z.to_nat n) 0). generalize (seq 0 (Z.to_nat n)).
  induction l as [|a l IH]; simpl; intro H; [constructor|].
  inversion H as [|? ? Hna Hl]; subst. constructor; [|auto].
  intro Hin. apply in_map_iff in Hin as [b [Hb Hin]]. apply Nat2Z.inj in Hb. subst. auto.
Qed.

Lemma NoDup_flat_map {A B : Type} (f : A -> list B) l :
  NoDup l -> (forall a, NoDup (f a)) ->
  (forall a a' b, In b (f a) -> In b (f a') -> a = a') -> NoDup (flat_map f l).
Proof.
  intros Hl Hf Hdis. induction Hl as [|a l Hna Hl IH]; simpl; [constructor|].
  apply NoDup_app; [apply Hf | exact IH|].
  intros b Hb Hb'. apply in_flat_map in Hb' as [a' [Ha' Hb']].
  rewrite (Hdis _ _ _ Hb Hb') in Hna. contradiction.
Qed.

Lemma where_cells_NoDup graph : NoDup (where_cells graph).
Proof.
  unfold where_cells. apply NoDup_flat_map; [apply NoDup_zrange| |].
  - intro i. apply NoDup_flat_map; [apply NoDup_zrange| |].
    + intro j. apply NoDup_flat_map; [apply NoDup_zrange| |].
      * intro tau. destruct (String.eqb _ _); repeat constructor. intros [].
      * intros t t' c. destruct (String.eqb (cell graph i j t) _); [intros []|].
        destruct (String.eqb (cell graph i j t') _); [intros _ []|].
        intros [<-|[]] [H|[]]. injection H. auto.
    + intros j j' c H H'.
      apply in_flat_map in H as [t [_ H]]. apply in_flat_map in H' as [t' [_ H']].
      destruct (String.eqb (cell graph i j t) _); [destruct H|].
      destruct (String.eqb (cell graph i j' t') _); [destruct H'|].
      destruct H as [<-|[]]. destruct H' as [H'|[]]. injection H'. auto.
  - intros i i' c H H'.
    apply in_flat_map in H as [j [_ H]]. apply in_flat_map in H as [t [_ H]].
    apply in_flat_map in H' as [j' [_ H']]. apply in_flat_map in H' as [t' [_ H']].
    destruct (String.eqb (cell graph i j t) _); [destruct H|].
    destruct (String.eqb (cell graph i' j' t') _); [destruct H'|].
    destruct H as [<-|[]]. destruct H' as [H'|[]]. injection H'. auto.
Qed.

Lemma In_where_cells graph i j tau :
  0 <= i < graph_N graph -> 0 <= j < graph_N graph -> 0 <= tau < graph_T graph ->
  cell graph i j tau <> EmptyString -> In (i, j, tau) (where_cells graph).
Proof.
  intros Hi Hj Ht Hc. unfold where_cells.
  apply in_flat_map. exists i. split; [apply In_zrange; lia|].
  apply in_flat_map. exists j. split; [apply In_zrange; lia|].
  apply in_flat_map. exists tau. split; [apply In_zrange; lia|].
  destruct (String.eqb_spec (cell graph i j tau) EmptyString); [contradiction | left; reflexivity].
Qed.

Lemma cell_action_lag0 graph i j b :
  cell_action graph i j 0 = Ok b -> b = negb (j >? i).
Proof.
  unfold cell_action. simpl. destruct (_reverse_patt _) as [r|e|]; simpl; try discriminate.
  destruct (negb _); [discriminate|]. destruct (j >? i); intro H; injection H; auto.
Qed.

(** ** Query validation *)

Lemma _check_XYZ_rejects N X Y Z :
  (let '(X2, Y2, Z2) := clean_XYZ X Y Z in
   existsb (fun n => snd n >? 0) (X2 ++ Y2 ++ Z2)
   || existsb (fun n => (fst n >=? N) || (fst n <? 0)) (X2 ++ Y2 ++ Z2)
   || forallb (fun n => negb (snd n =? 0)) Y2) = true ->
  exists e, _check_XYZ N X Y Z = Raise e.
Proof.
  unfold _check_XYZ. destruct (clean_XYZ X Y Z) as [[X2 Y2] Z2]. intro Hbad.
  cbv beta iota zeta in Hbad.
  destruct (X2 ++ Y2 ++ Z2) as [|a l] eqn:E; [eauto|].
  destruct (existsb (fun n => snd n >? 0) (a :: l)) eqn:E1; [eauto|].
  destruct (existsb (fun n => (fst n >=? N) || (fst n <? 0)) (a :: l)) eqn:E2; [eauto|].
  destruct Y2 as [|y Y2']; [eauto|].
  destruct (forallb (fun n => negb (snd n =? 0)) (y :: Y2')) eqn:E3; [eauto|].
  discriminate Hbad.
Qed.

(** * The claims *)

(** C1 (run_test answers (0, 1) for a d-separated query and (1, 0)
    otherwise).  The oracle built from the DAG [hang_links] receives the
    valid query [X = [(0, 0)]], [Y = [(7, 0)]], [Z = [(4, 0)]].  The two
    nodes are d-connected: the source's own path search, started from
    [(7, 0)], returns the open path [7 -> 6 -> 5 -> 4 <- 2 <- 1 <- 0].
    Yet [run_test] on the query never answers: whatever the fuel, its
    model runs out of fuel, because [backtrace_path] goes round the cycle
    [(4,0)], [(2,0)], [(1,0)], [(3,0)] for ever. *)
Theorem run_test_never_answers_connected_query :
  OracleCI_init (Some hang_links) None None None = Ok hang_oracle /\
  _has_any_path 100 hang_links [] [(7, 0)] [(0, 0)] [(4, 0)] 0 false
    = Ok (Some [(7, 0); (6, 0); (5, 0); (4, 0); (2, 0); (1, 0); (0, 0)]) /\
  forall fuel tau_max cut_off,
    fst (run_test fuel hang_oracle [(0, 0)] [(7, 0)] [(4, 0)] tau_max cut_off) = OutOfFuel.
Proof.
  split; [vm_compute; reflexivity|]. split; [vm_compute; reflexivity|].
  exact hang_run_test.
Qed.

(** C2 (the verdict of run_test is symmetric in X and Y).  On the oracle
    of [hang_links] given [Z = [(4, 0)]], [run_test(X=[(7, 0)], Y=[(0, 0)])]
    returns [(1, 0)], while [run_test(X=[(0, 0)], Y=[(7, 0)])] returns
    nothing for any fuel. *)
Theorem run_test_not_symmetric :
  fst (run_test 100 hang_oracle [(7, 0)] [(0, 0)] [(4, 0)] 0 EmptyString)
    = Ok (test_result false) /\
  forall fuel, fst (run_test fuel hang_oracle [(0, 0)] [(7, 0)] [(4, 0)] 0 EmptyString)
    = OutOfFuel.
Proof.
  split; [vm_compute; reflexivity|]. intro fuel. apply hang_run_test.
Qed.

(** C3 (amended: each contemporaneous pair is processed once, at the cell
    whose column index is at most its row index).  When the compilation
    loop does not raise, the processed cells have no repetition, every
    processed lag-0 cell [(i, j, 0)] has [j <= i], and for [j < i] with a
    nonempty [graph[i, j, 0]] the cell [(i, j, 0)] is processed and the
    mirror cell [(j, i, 0)] is not. *)
Theorem contemporaneous_cells_once graph ps :
  processed_cells graph = Ok ps ->
  NoDup ps /\
  (forall i j, In (i, j, 0) ps -> j <= i) /\
  (forall i j, 0 <= j < i -> i < graph_N graph -> 0 < graph_T graph ->
     cell graph i j 0 <> EmptyString ->
     In (i, j, 0) ps /\ ~ In (j, i, 0) ps).
Proof.
  unfold processed_cells. intro H.
  destruct (processed_cells_filter graph _ _ _ H) as [Hall ->]. simpl.
  assert (Hle : forall i j,
    In (i, j, 0) (filter (action_true graph) (where_cells graph)) -> j <= i).
  { intros i j Hin. apply filter_In in Hin as [_ Ha]. simpl in Ha.
    destruct (cell_action graph i j 0) as [b|e|] eqn:E; try discriminate.
    apply cell_action_lag0 in E. subst b. apply negb_true_iff in Ha.
    rewrite Z.gtb_ltb in Ha. apply Z.ltb_ge in Ha. exact Ha. }
  split; [apply NoDup_filter, where_cells_NoDup|]. split; [exact Hle|].
  intros i j Hij HN HT Hc. split.
  - assert (Hw : In (i, j, 0) (where_cells graph)) by (apply In_where_cells; auto; lia).
    apply filter_In. split; [exact Hw|]. simpl.
    destruct (Hall _ _ _ Hw) as [b Hb]. rewrite Hb. apply cell_action_lag0 in Hb. subst b.
    apply negb_true_iff. rewrite Z.gtb_ltb. apply Z.ltb_ge. lia.
  - intro Hin. apply Hle in Hin. lia.
Qed.

Lemma contemporaneous_cells_once_witness :
  processed_cells arrow_graph = Ok [(1, 0, 0)] /\
  In (1, 0, 0) [(1, 0, 0)] /\ ~ In (0, 1, 0) [(1, 0, 0)].
Proof.
  assert (H : processed_cells arrow_graph = Ok [(1, 0, 0)]) by (vm_compute; reflexivity).
  split; [exact H|].
  apply (proj2 (proj2 (contemporaneous_cells_once arrow_graph _ H)) 1 0);
    [lia | vm_compute; reflexivity | vm_compute; reflexivity | vm_compute; discriminate].
Defined.

(** C3 counterexample: in [arrow_graph] the cell [(0, 1, 0)] holds ['-->'],
    an edge whose target index 1 is greater than its source index 0, and
    it is not processed: only the mirror cell [(1, 0, 0)] is. *)
Lemma arrow_graph_cell_skipped :
  cell arrow_graph 0 1 0 = "-->"%string /\
  processed_cells arrow_graph = Ok [(1, 0, 0)] /\
  ~ In (0, 1, 0) [(1, 0, 0)].
Proof.
  split; [reflexivity|]. split; [vm_compute; reflexivity|].
  simpl. intros [H|[]]. discriminate.
Qed.

(** C4 (amended: a '---' edge adds a selection variable that is a child of
    both endpoints).  At every point of the compilation loop, the next
    [latent_index] k is not yet a key of [links], and the insertion of a
    '---' edge between [i] and [j] at lag [tau] appends the key k with
    [links[k] = [(i, -tau), (j, 0)]] (so [i] and [j] are the parents of k),
    appends k to [selection_vars] and increments [latent_index]. *)
Theorem selection_edge_insertion graph pre st :
  fold_left (graph_step graph) pre (Ok (graph_init graph)) = Ok st ->
  dhas (g_links st) (latent_index st) = false /\
  forall i j tau,
    insert_edge st i j tau "---" =
    Ok (mk_gstate (g_links st ++ [(latent_index st, [LP2 i (- tau); LP2 j 0])])
          (g_selection_vars st ++ [latent_index st]) (latent_index st + 1)).
Proof.
  intro H.
  assert (Hf : latent_fresh st).
  { refine (graph_fold_fresh graph pre _ _ _ H). intros s Hs. injection Hs as <-.
    apply graph_init_fresh. }
  assert (Hk : dhas (g_links st) (latent_index st) = false).
  { destruct (dhas (g_links st) (latent_index st)) eqn:E; [|reflexivity].
    specialize (Hf _ E). lia. }
  split; [exact Hk|]. intros i j tau. apply insert_edge_selection, Hk.
Qed.

Lemma selection_edge_insertion_witness :
  insert_edge (graph_init selection_graph) 1 0 0 "---" =
  Ok (mk_gstate [(0, []); (1, []); (2, [LP2 1 0; LP2 0 0])] [2] 3).
Proof.
  exact (proj2 (selection_edge_insertion selection_graph [] (graph_init selection_graph)
                  eq_refl) 1 0 0).
Defined.

(** C4 counterexample: compiling [selection_graph] (a single '---' edge
    between 0 and 1) adds the selection variable 2 with parents 1 and 0;
    the endpoint 0 gets no parent, so 2 is not a parent of the endpoints. *)
Lemma selection_graph_links :
  get_links_from_graph selection_graph =
  Ok ([(0, []); (1, []); (2, [LP2 1 0; LP2 0 0])], [0; 1], [2]).
Proof. vm_compute. reflexivity. Qed.

(** C5 (the lagged-parents query skips the links of relative lag 0 when
    exclusion is requested).  With [exclude_contemp=True], the node
    [(0, 0)] loses its lagged parent [(0, -1)] through the link of relative
    lag -1, while the node [(0, -1)] keeps the parent [(1, -1)] through a
    link of relative lag 0: the code tests the lag of the node, not that of
    the link.  The sibling [_get_lagged_children] tests the link's lag. *)
Theorem lagged_parents_exclusion_uses_node_lag :
  _get_lagged_parents [(0, [LP2 0 (-1)])] (0, 0) true = Ok [] /\
  _get_lagged_parents [(0, [LP2 1 0]); (1, [])] (0, -1) true = Ok [(1, -1)] /\
  _get_lagged_children (0, 0) [(0, [(1, 1)])] true = Ok [(1, 1)].
Proof. repeat split. Qed.

(** C6 (amended: only the path search conditions on every selection
    variable at every lag from 0 to its bound; the ancestor search, built
    with the bound 0, conditions on them at lag 0 only).  The conditioning
    list of [_has_any_path] holds [(s, -t)] for every selection variable
    [s] and [0 <= t <= max_lag]; the non-repeating ancestor search admits no
    node of its conditioning list, so in particular no [(s, 0)]. *)
Theorem selection_conditioning :
  (forall sel X Y conds max_lag s t, In s sel -> 0 <= t <= max_lag ->
     mem (s, - t) (path_conds sel X Y conds max_lag) = true) /\
  (forall fuel links sel Y conds ml ancestors m,
     _get_non_blocked_ancestors fuel links sel Y conds NonRepeating ml = Ok (ancestors, m) ->
     forall s y l, In s sel -> nget ancestors y = Some l -> ~ In (s, 0) l).
Proof.
  split.
  - intros sel X Y conds max_lag s t Hs Ht. apply mem_In. unfold path_conds.
    apply in_or_app. right. apply In_selection_nodes; assumption.
  - intros fuel links sel Y conds ml ancestors m H s y l Hs Hy Hin.
    specialize (ancestors_outside _ _ _ _ _ _ _ _ H y l Hy _ Hin). intro Hout.
    rewrite mem_In in Hout; [discriminate|]. unfold anc_conds.
    apply in_or_app. right. apply (In_selection_nodes sel 0 s 0); [exact Hs | lia].
Qed.

Lemma selection_conditioning_witness :
  mem (1, -1) (path_conds [1] [(0, 0)] [(1, 0)] [] 1) = true /\
  ~ In (1, 0) [(1, -1)].
Proof.
  split; [exact (proj1 selection_conditioning [1] [(0, 0)] [(1, 0)] [] 1 1 1
                  (or_introl eq_refl) ltac:(lia))|].
  apply (proj2 selection_conditioning 10%nat lagged_selection_links [1] [(0, 0)] (Some [])
           None [((0, 0), [(1, -1)])] 1 ltac:(vm_compute; reflexivity) 1 (0, 0));
    [simpl; auto | reflexivity].
Defined.

(** C6 counterexample: with the selection variable 1 and the link
    [1 -> 0] at lag 1, the ancestor search from [(0, 0)] ends with the bound
    1 and admits the selection node [(1, -1)] as an ancestor: the node is
    within the bound and absent from the conditioning list. *)
Lemma lagged_selection_ancestor :
  _get_non_blocked_ancestors 10 lagged_selection_links [1] [(0, 0)] (Some []) NonRepeating None
    = Ok ([((0, 0), [(1, -1)])], 1) /\
  mem (1, -1) (anc_conds [1] [(0, 0)] [] 0) = false.
Proof. split; vm_compute; reflexivity. Qed.

(** C7 (get_measure returns 0 for a d-separated query and 1 otherwise).
    For every query whose translation and validation succeed, so every
    valid query, [get_measure] raises [NameError]: its body calls
    [_check_XYZ] as a global name, which the module does not define. *)
Theorem get_measure_raises_NameError o X Y Z tau_max k :
  query_key o X Y Z = Ok k -> fst (get_measure o X Y Z tau_max) = Raise NameError.
Proof.
  unfold query_key, get_measure. intro H.
  destruct (translate (observed_vars o) X); try discriminate.
  destruct (translate (observed_vars o) Y); try discriminate.
  destruct (translate (observed_vars o) Z); try discriminate.
  reflexivity.
Qed.

Lemma get_measure_raises_NameError_witness :
  fst (run_test 100 pair_oracle [(0, -1)] [(1, 0)] [] 0 EmptyString) = Ok (0%Q, 1%Q) /\
  fst (get_measure pair_oracle [(0, -1)] [(1, 0)] [] 0) = Raise NameError.
Proof.
  split; [vm_compute; reflexivity|].
  apply (get_measure_raises_NameError _ _ _ _ _ ([(0, -1)], [(1, 0)], [])).
  vm_compute. reflexivity.
Defined.

(** C8 (run_test is memoised per canonical query key).  When [run_test]
    answers, a later call with the same query on the resulting oracle
    gives the same answer and leaves the oracle unchanged, for any fuel,
    [tau_max] and [cut_off].  From a freshly built oracle (empty cache, no
    search run yet), a sequence of calls that all answer runs [_is_dsep]
    exactly once per distinct validated key. *)
Theorem run_test_memoised :
  (forall fuel o X Y Z tau_max cut_off r o1,
     run_test fuel o X Y Z tau_max cut_off = (Ok r, o1) ->
     forall fuel' tau_max' cut_off', run_test fuel' o1 X Y Z tau_max' cut_off' = (Ok r, o1)) /\
  (forall fuel o qs tau_max cut_off rs o',
     dsepsets o = [] -> dsep_calls o = 0%nat ->
     run_seq fuel o qs tau_max cut_off = (rs, o') ->
     Forall (fun r => exists v, r = Ok v) rs ->
     dsep_calls o' = List.length (kdedup (ok_keys o qs))).
Proof.
  split.
  - exact run_test_cached.
  - intros fuel o qs tau_max cut_off rs o' Hd Hc Hrun Hok.
    destruct (run_seq_counts _ _ _ _ _ _ _ Hrun Hok) as [_ [_ [_ Hcalls]]].
    rewrite Hcalls, Hd, Hc. reflexivity.
Qed.

Lemma run_test_memoised_witness :
  dsep_calls (snd (run_seq 100 pair_oracle
     [([(0, -1)], [(1, 0)], []); ([(0, -1); (0, -1)], [(1, 0)], []); ([(1, -2)], [(0, 0)], [])]
     0 EmptyString)) = 2%nat /\
  run_test 7 (snd (run_test 100 pair_oracle [(0, -1)] [(1, 0)] [] 0 EmptyString))
    [(0, -1)] [(1, 0)] [] 5 EmptyString
  = run_test 100 pair_oracle [(0, -1)] [(1, 0)] [] 0 EmptyString.
Proof.
  split.
  - set (qs := [([(0, -1)], [(1, 0)], []); ([(0, -1); (0, -1)], [(1, 0)], []);
                 ([(1, -2)], [(0, 0)], [])] : list (list node * list node * list node)).
    rewrite (proj2 run_test_memoised 100%nat pair_oracle qs 0 EmptyString
               (fst (run_seq 100 pair_oracle qs 0 EmptyString)) _ eq_refl eq_refl
               (surjective_pairing _)).
    + vm_compute. reflexivity.
    + vm_compute. repeat constructor; eexists; reflexivity.
  - apply (proj1 run_test_memoised 100%nat pair_oracle [(0, -1)] [(1, 0)] [] 0 EmptyString
             (0%Q, 1%Q)); vm_compute; reflexivity.
Defined.

(** C9 (run_test raises on a query that breaks the key invariants and
    caches nothing).  If the observed-variable translation of [X], [Y], [Z]
    succeeds and the deduplicated query has a node of positive lag, a
    variable outside [[0, N)], or no node of lag 0 in [Y] (an empty [Y]
    included), then [run_test] raises and returns the oracle unchanged, so
    its cache and its search count are untouched.  A malformed tuple shape
    cannot be written in this typed model; the one shape failure left, an
    empty query, has an empty [Y]. *)
Theorem run_test_rejects_invalid_query fuel o X Y Z tau_max cut_off X1 Y1 Z1 :
  translate (observed_vars o) X = Ok X1 ->
  translate (observed_vars o) Y = Ok Y1 ->
  translate (observed_vars o) Z = Ok Z1 ->
  (let '(X2, Y2, Z2) := clean_XYZ X1 Y1 Z1 in
   existsb (fun n => snd n >? 0) (X2 ++ Y2 ++ Z2)
   || existsb (fun n => (fst n >=? oracle_N o) || (fst n <? 0)) (X2 ++ Y2 ++ Z2)
   || forallb (fun n => negb (snd n =? 0)) Y2) = true ->
  exists e, run_test fuel o X Y Z tau_max cut_off = (Raise e, o).
Proof.
  intros HX HY HZ Hbad. unfold run_test, query_key. rewrite HX, HY, HZ. simpl.
  destruct (_check_XYZ_rejects _ _ _ _ Hbad) as [e He]. rewrite He. eauto.
Qed.

Lemma run_test_rejects_invalid_query_witness :
  exists e, run_test 100 pair_oracle [(0, 1)] [(1, 0)] [] 0 EmptyString = (Raise e, pair_oracle).
Proof.
  apply (run_test_rejects_invalid_query 100 pair_oracle [(0, 1)] [(1, 0)] [] 0 EmptyString
           [(0, 1)] [(1, 0)] []); vm_compute; reflexivity.
Defined.

(** C10 (run_test does not depend on tau_max and cut_off).  For any fuel,
    oracle and query, two calls that differ only in [tau_max] and
    [cut_off] return the same result and the same oracle, cache included. *)
Theorem run_test_ignores_tau_max_cut_off fuel o X Y Z tau_max tau_max' cut_off cut_off' :
  run_test fuel o X Y Z tau_max cut_off = run_test fuel o X Y Z tau_max' cut_off'.
Proof. reflexivity. Qed.

(** * Further properties of the code *)

(** ** Containers *)

Lemma mem_true_iff (a : node) l : mem a l = true <-> In a l.
Proof.
  split; [|apply mem_In]. unfold mem. intro H. apply existsb_exists in H as [b [Hb He]].
  unfold node_eqb in He. apply andb_true_iff in He as [H1 H2].
  apply Z.eqb_eq in H1. apply Z.eqb_eq in H2. destruct a, b; simpl in *; subst; exact Hb.
Qed.

Lemma mem_false_iff (a : node) l : mem a l = false <-> ~ In a l.
Proof.
  rewrite <- mem_true_iff. destruct (mem a l); split; congruence.
Qed.

Lemma dedup_aux_spec : forall l seen,
  NoDup (dedup_aux seen l) /\
  (forall n, In n (dedup_aux seen l) <-> In n l /\ ~ In n seen).
Proof.
  induction l as [|a l IH]; intro seen; simpl.
  - split; [constructor | tauto].
  - destruct (mem a seen) eqn:E.
    + apply mem_true_iff in E. destruct (IH seen) as [H1 H2]. split; [exact H1|].
      intro n. rewrite H2. split; [tauto|]. intros [[<-|Hn] Hs]; [contradiction|tauto].
    + apply mem_false_iff in E. destruct (IH (seen ++ [a])) as [H1 H2]. split.
      * constructor; [|exact H1]. rewrite H2. intros [_ Hs]. apply Hs, in_or_app. right; left; reflexivity.
      * intro n. simpl. rewrite H2. rewrite in_app_iff. simpl.
        split; [intros [<-|[Hn Hs]]; [tauto | tauto] |].
        intros [[<-|Hn] Hs]; [left; reflexivity|].
        destruct (node_eqb a n) eqn:Ean.
        -- left. unfold node_eqb in Ean. apply andb_true_iff in Ean as [Ea En].
           apply Z.eqb_eq in Ea. apply Z.eqb_eq in En. destruct a, n; simpl in *; subst; reflexivity.
        -- right. split; [exact Hn|]. intros [Hs'|[Han|[]]]; [tauto|].
           subst. rewrite node_eqb_refl in Ean. discriminate.
Qed.

Lemma dedup_aux_id : forall l seen,
  NoDup l -> (forall n, In n l -> ~ In n seen) -> dedup_aux seen l = l.
Proof.
  induction l as [|a l IH]; intros seen Hl Hs; simpl; [reflexivity|].
  inversion Hl as [|? ? Ha Hl']; subst.
  assert (E : mem a seen = false) by (apply mem_false_iff, Hs; left; reflexivity).
  rewrite E. f_equal. apply IH; [exact Hl'|]. intros n Hn Hin.
  apply in_app_or in Hin as [Hin|[<-|[]]]; [exact (Hs n (or_intror Hn) Hin) | contradiction].
Qed.

Lemma clean_XYZ_spec X Y Z X1 Y1 Z1 :
  clean_XYZ X Y Z = (X1, Y1, Z1) ->
  NoDup X1 /\ NoDup Y1 /\ NoDup Z1 /\
  (forall n, In n X1 <-> In n X) /\ (forall n, In n Y1 <-> In n Y) /\
  (forall n, In n Z1 <-> In n Z /\ ~ In n X /\ ~ In n Y).
Proof.
  unfold clean_XYZ, dedup. intro H. injection H as <- <- <-.
  destruct (dedup_aux_spec X []) as [HX1 HX2].
  destruct (dedup_aux_spec Y []) as [HY1 HY2].
  destruct (dedup_aux_spec Z []) as [HZ1 HZ2].
  split; [exact HX1|]. split; [exact HY1|]. split; [apply NoDup_filter, HZ1|].
  split; [intro n; rewrite HX2; simpl; tauto|].
  split; [intro n; rewrite HY2; simpl; tauto|].
  intro n. rewrite filter_In, HZ2, andb_true_iff, !negb_true_iff, !mem_false_iff, HX2, HY2.
  simpl. tauto.
Qed.

Lemma clean_XYZ_union X Y Z X1 Y1 Z1 :
  clean_XYZ X Y Z = (X1, Y1, Z1) ->
  forall n, In n (X1 ++ Y1 ++ Z1) <-> In n (X ++ Y ++ Z).
Proof.
  intros H n. destruct (clean_XYZ_spec _ _ _ _ _ _ H) as [_ [_ [_ [HX [HY HZ]]]]].
  rewrite !in_app_iff, HX, HY, HZ.
  destruct (mem n X) eqn:EX; [apply mem_true_iff in EX | apply mem_false_iff in EX];
  (destruct (mem n Y) eqn:EY; [apply mem_true_iff in EY | apply mem_false_iff in EY]); tauto.
Qed.

Lemma existsb_false_iff {A : Type} (f : A -> bool) l :
  existsb f l = false <-> forall a, In a l -> f a = false.
Proof.
  split.
  - intros H a Ha. destruct (f a) eqn:E; [|reflexivity].
    assert (existsb f l = true) by (apply existsb_exists; eauto). congruence.
  - intro H. destruct (existsb f l) eqn:E; [|reflexivity].
    apply existsb_exists in E as [a [Ha Hf]]. rewrite (H a Ha) in Hf. discriminate.
Qed.

(** ** Query validation *)

(** [_check_XYZ] accepts a query exactly when every node of [X], [Y] and
    [Z] has a lag [<= 0] and a variable index in [[0, N)], and some node of
    [Y] has lag 0.  Duplicates and overlaps between the lists are never a
    reason to reject. *)
Theorem _check_XYZ_accepts N X Y Z :
  (exists r, _check_XYZ N X Y Z = Ok r) <->
  (forall n, In n (X ++ Y ++ Z) -> snd n <= 0 /\ 0 <= fst n < N) /\
  (exists y, In y Y /\ snd y = 0).
Proof.
  unfold _check_XYZ. destruct (clean_XYZ X Y Z) as [[X1 Y1] Z1] eqn:Ec.
  pose proof (clean_XYZ_union _ _ _ _ _ _ Ec) as Hu.
  destruct (clean_XYZ_spec _ _ _ _ _ _ Ec) as [_ [_ [_ [_ [HY _]]]]].
  split.
  - intros [r Hr].
    destruct (X1 ++ Y1 ++ Z1) as [|a l] eqn:E; [discriminate|].
    destruct (existsb (fun n => snd n >? 0) (a :: l)) eqn:E1; [discriminate|].
    destruct (existsb (fun n => (fst n >=? N) || (fst n <? 0)) (a :: l)) eqn:E2; [discriminate|].
    rewrite existsb_false_iff in E1, E2. split.
    + intros n Hn. apply Hu in Hn.
      specialize (E1 _ Hn). specialize (E2 _ Hn). simpl in E1.
      apply orb_false_iff in E2 as [E2 E2']. lia.
    + destruct Y1 as [|y Y1']; [discriminate|].
      destruct (forallb (fun n => negb (snd n =? 0)) (y :: Y1')) eqn:E3; [discriminate|].
      apply Bool.not_true_iff_false in E3. rewrite forallb_forall in E3.
      destruct (forallb (fun n => negb (snd n =? 0)) (y :: Y1')) eqn:E4.
      * exfalso. apply E3. apply forallb_forall. exact E4.
      * apply Bool.not_true_iff_false in E4. 
        destruct (existsb (fun n => snd n =? 0) (y :: Y1')) eqn:E5.
        -- apply existsb_exists in E5 as [n [Hn Hz]]. exists n. split; [apply HY, Hn | lia].
        -- exfalso. apply E4, forallb_forall. intros n Hn. rewrite existsb_false_iff in E5.
           rewrite (E5 n Hn). reflexivity.
  - intros [Hall [y [Hy Hy0]]].
    assert (Hy1 : In y Y1) by (apply HY, Hy).
    destruct (X1 ++ Y1 ++ Z1) as [|a l] eqn:E.
    { exfalso. assert (H : In y (X ++ Y ++ Z)) by (apply in_or_app; right; apply in_or_app; auto).
      apply Hu in H. exact H. }
    assert (Hl : forall n, In n (a :: l) -> snd n <= 0 /\ 0 <= fst n < N).
    { intros n Hn. apply Hall, Hu, Hn. }
    assert (E1 : existsb (fun n => snd n >? 0) (a :: l) = false).
    { apply existsb_false_iff. intros n Hn. specialize (Hl n Hn). rewrite Z.gtb_ltb. apply Z.ltb_ge. lia. }
    assert (E2 : existsb (fun n => (fst n >=? N) || (fst n <? 0)) (a :: l) = false).
    { apply existsb_false_iff. intros n Hn. specialize (Hl n Hn).
      apply orb_false_iff. split; [rewrite Z.geb_leb; apply Z.leb_gt | apply Z.ltb_ge]; lia. }
    rewrite E1, E2.
    destruct Y1 as [|y1 Y1']; [destruct Hy1|].
    assert (E3 : forallb (fun n => negb (snd n =? 0)) (y1 :: Y1') = false).
    { apply Bool.not_true_iff_false. rewrite forallb_forall. intro H.
      specialize (H y Hy1). rewrite Hy0 in H. discriminate. }
    rewrite E3. eauto.
Qed.

Lemma _check_XYZ_Ok_clean N X Y Z r :
  _check_XYZ N X Y Z = Ok r -> r = clean_XYZ X Y Z.
Proof.
  unfold _check_XYZ. destruct (clean_XYZ X Y Z) as [[X1 Y1] Z1].
  destruct (X1 ++ Y1 ++ Z1); [discriminate|].
  destruct (existsb _ _); [discriminate|]. destruct (existsb _ _); [discriminate|].
  destruct Y1; [discriminate|]. destruct (forallb _ _); [discriminate|].
  intro H. injection H as <-. reflexivity.
Qed.

Lemma _check_XYZ_clean_eq N X Y Z X' Y' Z' :
  clean_XYZ X Y Z = clean_XYZ X' Y' Z' -> _check_XYZ N X Y Z = _check_XYZ N X' Y' Z'.
Proof. unfold _check_XYZ. intro H. rewrite H. reflexivity. Qed.

(** The lists returned by [_check_XYZ] have no repeated node; [X] and [Y]
    keep exactly their nodes, and [Z] keeps exactly its nodes that are in
    neither [X] nor [Y]. *)
Theorem _check_XYZ_output N X Y Z X1 Y1 Z1 :
  _check_XYZ N X Y Z = Ok (X1, Y1, Z1) ->
  NoDup X1 /\ NoDup Y1 /\ NoDup Z1 /\
  (forall n, In n X1 <-> In n X) /\ (forall n, In n Y1 <-> In n Y) /\
  (forall n, In n Z1 <-> In n Z /\ ~ In n X /\ ~ In n Y).
Proof.
  intro H. apply clean_XYZ_spec. symmetry. apply (_check_XYZ_Ok_clean N), H.
Qed.

Lemma _check_XYZ_output_witness :
  _check_XYZ 2 [(0, -1); (0, -1)] [(1, 0)] [(1, 0); (0, -2)] = Ok ([(0, -1)], [(1, 0)], [(0, -2)]) /\
  NoDup [(0, -1)] /\ NoDup [(1, 0)] /\ NoDup [(0, -2)].
Proof.
  assert (H : _check_XYZ 2 [(0, -1); (0, -1)] [(1, 0)] [(1, 0); (0, -2)]
              = Ok ([(0, -1)], [(1, 0)], [(0, -2)])) by (vm_compute; reflexivity).
  split; [exact H|].
  destruct (_check_XYZ_output _ _ _ _ _ _ _ H) as [H1 [H2 [H3 _]]]. auto.
Defined.

(** Validation is idempotent: a validated query passes [_check_XYZ]
    again unchanged. *)
Theorem _check_XYZ_idempotent N X Y Z X1 Y1 Z1 :
  _check_XYZ N X Y Z = Ok (X1, Y1, Z1) -> _check_XYZ N X1 Y1 Z1 = Ok (X1, Y1, Z1).
Proof.
  intro H. pose proof (_check_XYZ_Ok_clean _ _ _ _ _ H) as Hc.
  destruct (clean_XYZ_spec X Y Z X1 Y1 Z1 (eq_sym Hc)) as [HX1 [HY1 [HZ1 [HX [HY HZ]]]]].
  rewrite <- H. apply _check_XYZ_clean_eq. rewrite <- Hc.
  unfold clean_XYZ, dedup.
  rewrite (dedup_aux_id X1 []), (dedup_aux_id Y1 []), (dedup_aux_id Z1 []);
    try assumption; try (intros n _ []).
  f_equal. apply forallb_filter_id, forallb_forall. intros n Hn.
  apply HZ in Hn as [_ [Hx Hy]].
  rewrite <- HX in Hx. rewrite <- HY in Hy.
  apply mem_false_iff in Hx. apply mem_false_iff in Hy. rewrite Hx, Hy. reflexivity.
Qed.

Lemma _check_XYZ_idempotent_witness :
  _check_XYZ 2 [(0, -1)] [(1, 0)] [(0, -2)] = Ok ([(0, -1)], [(1, 0)], [(0, -2)]).
Proof.
  apply (_check_XYZ_idempotent 2 [(0, -1); (0, -1)] [(1, 0)] [(1, 0); (0, -2)]).
  vm_compute. reflexivity.
Defined.

Lemma _check_XYZ_accepts_witness :
  exists r, _check_XYZ 2 [(0, -1); (0, -1)] [(1, 0)] [(1, 0)] = Ok r.
Proof.
  apply (proj2 (_check_XYZ_accepts 2 [(0, -1); (0, -1)] [(1, 0)] [(1, 0)])). split.
  - intros n Hn. simpl in Hn. destruct Hn as [<-|[<-|[<-|[<-|[]]]]]; simpl; lia.
  - exists (1, 0). split; [left; reflexivity | reflexivity].
Defined.

(** ** Link patterns *)

(** [_reverse_patt] undoes itself on every three-character pattern whose
    left mark is not ['>'] and whose right mark is not ['<'] (so on
    ['-->'], ['<--'], ['<->'], ['---'], ['o->'], ...), keeping the middle
    mark. *)
Theorem _reverse_patt_involutive a b c :
  a <> ">"%char -> c <> "<"%char ->
  exists r, _reverse_patt (String a (String b (String c EmptyString))) = Ok r /\
            _reverse_patt r = Ok (String a (String b (String c EmptyString))).
Proof.
  intros Ha Hc. simpl.
  eexists. split; [reflexivity|]. simpl.
  destruct (Ascii.eqb_spec c ">"%char) as [->|Hc'].
  - simpl. destruct (Ascii.eqb_spec a "<"%char) as [->|Ha']; simpl; [reflexivity|].
    destruct (Ascii.eqb_spec a ">"%char); [contradiction | reflexivity].
  - destruct (Ascii.eqb_spec c "<"%char); [contradiction|].
    destruct (Ascii.eqb_spec a "<"%char) as [->|Ha']; simpl; [reflexivity|].
    destruct (Ascii.eqb_spec a ">"%char); [contradiction | reflexivity].
Qed.

Lemma _reverse_patt_involutive_witness :
  _reverse_patt "o->"%string = Ok "<-o"%string /\ _reverse_patt "<-o"%string = Ok "o->"%string.
Proof.
  destruct (_reverse_patt_involutive "o"%char "-"%char ">"%char ltac:(discriminate)
              ltac:(discriminate)) as [r [H1 H2]].
  simpl in H1. injection H1 as <-. split; [reflexivity | exact H2].
Defined.



(** ** Translation of observed-variable indices *)

Lemma py_index_norm l v : py_index l (py_norm (Z.of_nat (List.length l)) v) = py_index l v.
Proof.
  unfold py_norm.
  destruct ((- Z.of_nat (List.length l) <=? v) && (v <? 0)) eqn:E; [|reflexivity].
  unfold py_index. apply andb_true_iff in E as [E1 E2]. apply Z.leb_le in E1. apply Z.ltb_lt in E2.
  rewrite (proj2 (andb_true_iff _ _)) by (split; [apply Z.leb_le | apply Z.ltb_lt]; lia).
  rewrite (proj2 (andb_false_iff _ _)) by (left; apply Z.leb_gt; lia).
  rewrite (proj2 (andb_true_iff _ _)) by (split; [apply Z.leb_le | apply Z.ltb_lt]; lia).
  rewrite Z.add_comm. reflexivity.
Qed.

Lemma translate_norm obs X : translate obs (norm_query obs X) = translate obs X.
Proof.
  induction X as [|[v lag] X IH]; simpl; [reflexivity|].
  rewrite py_index_norm. fold (norm_query obs X). rewrite IH. reflexivity.
Qed.

Lemma py_index_range l v :
  (py_index l v = Raise IndexError /\ ~ (- Z.of_nat (List.length l) <= v < Z.of_nat (List.length l)))
  \/ (exists v', py_index l v = Ok v' /\ In v' l /\
                 - Z.of_nat (List.length l) <= v < Z.of_nat (List.length l)).
Proof.
  unfold py_index.
  destruct ((0 <=? v) && (v <? Z.of_nat (List.length l))) eqn:E1.
  - apply andb_true_iff in E1 as [E1 E2]. apply Z.leb_le in E1. apply Z.ltb_lt in E2.
    right. eexists. split; [reflexivity|]. split; [|lia]. apply nth_In. lia.
  - destruct ((- Z.of_nat (List.length l) <=? v) && (v <? 0)) eqn:E2.
    + apply andb_true_iff in E2 as [E2 E3]. apply Z.leb_le in E2. apply Z.ltb_lt in E3.
      right. eexists. split; [reflexivity|]. split; [|lia]. apply nth_In. lia.
    + left. split; [reflexivity|]. intro H.
      apply andb_false_iff in E1 as [E1|E1]; [apply Z.leb_gt in E1 | apply Z.ltb_ge in E1];
      (apply andb_false_iff in E2 as [E2|E2]; [apply Z.leb_gt in E2 | apply Z.ltb_ge in E2]); lia.
Qed.

Lemma translate_range obs X :
  (translate obs X = Raise IndexError /\
   exists v lag, In (v, lag) X /\ ~ (- Z.of_nat (List.length obs) <= v < Z.of_nat (List.length obs)))
  \/ (exists X1, translate obs X = Ok X1 /\ map snd X1 = map snd X /\
      (forall n, In n X1 -> In (fst n) obs) /\
      forall v lag, In (v, lag) X -> - Z.of_nat (List.length obs) <= v < Z.of_nat (List.length obs)).
Proof.
  induction X as [|[v lag] X IH]; simpl.
  - right. exists []. split; [reflexivity|]. split; [reflexivity|].
    split; [intros ? []| intros ? ? []].
  - destruct (py_index_range obs v) as [[Hv Hr]|[v' [Hv [Hin Hr]]]]; rewrite Hv; simpl.
    + left. split; [reflexivity|]. exists v, lag. split; [left; reflexivity | exact Hr].
    + destruct IH as [[HX [w [l [Hw Hr']]]]|[X1 [HX [Hs [Ho Hr']]]]]; rewrite HX; simpl.
      * left. split; [reflexivity|]. exists w, l. split; [right; exact Hw | exact Hr'].
      * right. exists ((v', lag) :: X1). split; [reflexivity|]. simpl. rewrite Hs.
        split; [reflexivity|]. split.
        -- intros n [<-|Hn]; [exact Hin | apply Ho, Hn].
        -- intros w l [Heq|Hw]; [injection Heq as <- <-; exact Hr | apply (Hr' w l Hw)].
Qed.

(** [run_test] reads a variable index of the query as a Python list index
    into [observed_vars]: an index [v] in [[-n, 0)], with [n] the number of
    observed variables, is answered exactly as the index [v + n], result and
    updated oracle alike. *)
Theorem run_test_negative_index fuel o X Y Z tau_max cut_off :
  run_test fuel o (norm_query (observed_vars o) X) (norm_query (observed_vars o) Y)
    (norm_query (observed_vars o) Z) tau_max cut_off
  = run_test fuel o X Y Z tau_max cut_off.
Proof.
  unfold run_test, query_key. rewrite !translate_norm. reflexivity.
Qed.

(** [run_test] raises [IndexError], and leaves the oracle (its cache
    included) unchanged, when a variable index of [X], [Y] or [Z] lies
    outside [[-n, n)], [n] the number of observed variables. *)
Theorem run_test_index_error fuel o X Y Z tau_max cut_off v lag :
  In (v, lag) (X ++ Y ++ Z) ->
  ~ (- Z.of_nat (List.length (observed_vars o)) <= v < Z.of_nat (List.length (observed_vars o))) ->
  run_test fuel o X Y Z tau_max cut_off = (Raise IndexError, o).
Proof.
  intros Hin Hr. unfold run_test, query_key.
  assert (Hcase : forall W, In (v, lag) W ->
            translate (observed_vars o) W = Raise IndexError).
  { intros W HW. destruct (translate_range (observed_vars o) W)
      as [[H _]|[W1 [_ [_ [_ Hall]]]]]; [exact H|].
    exfalso. exact (Hr (Hall _ _ HW)). }
  apply in_app_or in Hin as [Hin|Hin]; [rewrite (Hcase _ Hin); reflexivity|].
  destruct (translate_range (observed_vars o) X) as [[HX _]|[X1 [HX _]]]; rewrite HX;
    [reflexivity|]. simpl.
  apply in_app_or in Hin as [Hin|Hin]; [rewrite (Hcase _ Hin); reflexivity|].
  destruct (translate_range (observed_vars o) Y) as [[HY _]|[Y1 [HY _]]]; rewrite HY;
    [reflexivity|]. simpl.
  rewrite (Hcase _ Hin). reflexivity.
Qed.

Lemma run_test_index_error_witness :
  run_test 100 pair_oracle [(0, -1)] [(1, 0)] [(2, 0)] 0 EmptyString = (Raise IndexError, pair_oracle).
Proof.
  apply (run_test_index_error 100 pair_oracle [(0, -1)] [(1, 0)] [(2, 0)] 0 EmptyString 2 0).
  - simpl. auto.
  - simpl. lia.
Defined.

(** ** Children *)

Lemma dget_map {A : Type} (F : Z -> A) R k :
  In k R -> dget (map (fun i => (i, F i)) R) k = Ok (F k).
Proof.
  induction R as [|i R IH]; simpl; intro H; [destruct H|].
  destruct (Z.eqb_spec k i) as [->|Hne]; [reflexivity|].
  apply IH. destruct H as [->|H]; [contradiction | exact H].
Qed.

Lemma dset_aux_map {A : Type} (F : Z -> A) R k v :
  NoDup R -> dset_aux (map (fun i => (i, F i)) R) k v
             = map (fun i => (i, if i =? k then v else F i)) R.
Proof.
  induction R as [|i R IH]; simpl; intro HR; [reflexivity|].
  inversion HR as [|? ? Hi HR']; subst.
  rewrite (Z.eqb_sym i k). destruct (Z.eqb_spec k i) as [->|Hne].
  - f_equal. apply map_ext_in. intros i' Hi'.
    destruct (Z.eqb_spec i' i) as [->|]; [contradiction | reflexivity].
  - f_equal. apply IH, HR'.
Qed.

Lemma dhas_map {A : Type} (F : Z -> A) R k : In k R -> dhas (map (fun i => (i, F i)) R) k = true.
Proof.
  induction R as [|i R IH]; simpl; intro H; [destruct H|].
  destruct H as [->|H]; [rewrite Z.eqb_refl; reflexivity | rewrite IH by exact H; apply orb_true_r].
Qed.

Lemma dappend_map {A : Type} (F : Z -> list A) R k x :
  NoDup R -> In k R ->
  dappend (map (fun i => (i, F i)) R) k x
  = Ok (map (fun i => (i, if i =? k then F i ++ [x] else F i)) R).
Proof.
  intros HR Hk. unfold dappend. rewrite (dget_map _ _ _ Hk). simpl. unfold dset.
  rewrite (dhas_map _ _ _ Hk), (dset_aux_map _ _ _ _ HR). f_equal.
  apply map_ext. intro i. destruct (Z.eqb_spec i k) as [->|]; reflexivity.
Qed.

(** The contribution of the links [lps] of [j] to [children[i]]. *)
Lemma get_children_inner (R : list Z) (j : Z) (lps : list link_props) :
  NoDup R ->
  (forall lp, In lp lps -> let '(i, _, coeff) := link_view lp in
              Qeq_bool coeff 0 = false -> In i R) ->
  forall A : Z -> list (Z * Z),
  fold_left (fun acc2 lp =>
      children2 <- acc2 ;;
      let '(i, tau, coeff) := link_view lp in
      if negb (Qeq_bool coeff 0) then dappend children2 i (j, Z.abs tau)
      else Ok children2) lps (Ok (map (fun i => (i, A i)) R))
  = Ok (map (fun i => (i, A i ++ flat_map (fun lp =>
              let '(i', tau, coeff) := link_view lp in
              if (i' =? i) && negb (Qeq_bool coeff 0) then [(j, Z.abs tau)] else []) lps)) R).
Proof.
  intro HR. induction lps as [|lp lps IH]; intros Hlps A; simpl.
  - f_equal. apply map_ext. intro i. rewrite app_nil_r. reflexivity.
  - assert (Hrest : forall lp', In lp' lps -> let '(i, _, coeff) := link_view lp' in
              Qeq_bool coeff 0 = false -> In i R) by (intros lp' H; apply Hlps; right; exact H).
    specialize (Hlps lp (or_introl eq_refl)).
    destruct (link_view lp) as [[i0 tau] coeff].
    destruct (Qeq_bool coeff 0) eqn:Ec; simpl.
    + rewrite IH by exact Hrest. f_equal. apply map_ext. intro i.
      rewrite andb_false_r. reflexivity.
    + rewrite (dappend_map _ _ _ _ HR (Hlps eq_refl)).
      rewrite (IH Hrest (fun i => if i =? i0 then A i ++ [(j, Z.abs tau)] else A i)).
      f_equal. apply map_ext. intro i. rewrite andb_true_r, (Z.eqb_sym i0 i).
      destruct (i =? i0); simpl; [rewrite <- app_assoc; reflexivity | reflexivity].
Qed.

Lemma In_map_fst_dget {A : Type} (d : zdict A) k : In k (map fst d) -> exists v, dget d k = Ok v.
Proof.
  induction d as [|[k' v'] d IH]; simpl; intro H; [destruct H|].
  destruct (Z.eqb_spec k k') as [->|Hne]; [eauto|].
  apply IH. destruct H as [H|H]; [simpl in H; congruence | exact H].
Qed.

Lemma fold_left_map_step {B : Type} (F : outcome (zdict B) -> Z -> outcome (zdict B))
    (P : list Z -> Z -> B) (R : list Z) (js : list Z) :
  (forall js1 j, In j js -> F (Ok (map (fun i => (i, P js1 i)) R)) j
                            = Ok (map (fun i => (i, P (js1 ++ [j]) i)) R)) ->
  forall js1, fold_left F js (Ok (map (fun i => (i, P js1 i)) R))
              = Ok (map (fun i => (i, P (js1 ++ js) i)) R).
Proof.
  induction js as [|j js IH]; intros HF js1; simpl.
  - rewrite app_nil_r. reflexivity.
  - rewrite (HF js1 j (or_introl eq_refl)). rewrite IH by (intros; apply HF; right; assumption).
    rewrite <- app_assoc. reflexivity.
Qed.

(** [_get_children] inverts the links: when the keys of [links] are
    [0, ..., N-1] and every link with a nonzero coefficient has its parent
    among them, it returns, for every [i] in [range(N)] in this order,
    [children[i] = [(j, abs(tau)) for j in range(N) for ((i', tau), coeff)
    in links[j] if i' == i and coeff != 0]], in the order of [j] and of
    [links[j]]. *)
Theorem _get_children_spec links :
  map fst links = zrange (Z.of_nat (List.length links)) ->
  (forall j lps, dget links j = Ok lps -> forall lp, In lp lps ->
     let '(i, _, coeff) := link_view lp in
     Qeq_bool coeff 0 = false -> 0 <= i < Z.of_nat (List.length links)) ->
  _get_children links
  = Ok (map (fun i => (i, children_of links i)) (zrange (Z.of_nat (List.length links)))).
Proof.
  intros Hkeys Hpar. unfold _get_children, children_of.
  set (N := Z.of_nat (List.length links)) in *.
  set (P := fun js i => flat_map (fun j =>
      match dget links j with
      | Ok lps =>
          flat_map (fun lp =>
              let '(i', tau, coeff) := link_view lp in
              if (i' =? i) && negb (Qeq_bool coeff 0) then [(j, Z.abs tau)] else []) lps
      | _ => []
      end) js).
  change (fun i => (i, flat_map _ (zrange N))) with (fun i => (i, P (zrange N) i)).
  replace (map (fun j => (j, @nil (Z * Z))) (zrange N)) with (map (fun i => (i, P [] i)) (zrange N))
    by reflexivity.
  apply (fold_left_map_step _ P (zrange N) (zrange N)).
  intros js1 j Hj. simpl.
  rewrite <- Hkeys in Hj. destruct (In_map_fst_dget _ _ Hj) as [lps Hl]. rewrite Hl. simpl.
  rewrite get_children_inner.
  - f_equal. apply map_ext. intro i. unfold P. rewrite flat_map_app. simpl. rewrite Hl.
    rewrite app_nil_r. reflexivity.
  - apply NoDup_zrange.
  - intros lp Hlp. specialize (Hpar j lps Hl lp Hlp). destruct (link_view lp) as [[i tau] c].
    intro Hc. apply In_zrange, Hpar, Hc.
Qed.

Lemma _get_children_spec_witness :
  _get_children hang_links
  = Ok (map (fun i => (i, children_of hang_links i)) (zrange (Z.of_nat (List.length hang_links)))).
Proof.
  apply _get_children_spec; [vm_compute; reflexivity|].
  intros j lps H lp Hlp. simpl in H.
  repeat match goal with
         | H : context [if ?c then _ else _] |- _ => destruct c
         end; try discriminate H;
  injection H as <-; simpl in Hlp;
  repeat match goal with
         | H : _ \/ _ |- _ => destruct H as [<-|H]
         | H : False |- _ => destruct H
         end; simpl; lia.
Defined.

Lemma dget_map_inv {A : Type} (F : Z -> A) R k v :
  dget (map (fun i => (i, F i)) R) k = Ok v -> v = F k.
Proof.
  induction R as [|i R IH]; simpl; intro H; [discriminate|].
  destruct (Z.eqb_spec k i) as [->|]; [injection H as <-; reflexivity | apply IH, H].
Qed.

Lemma dget_In_keys {A : Type} (d : zdict A) k v : dget d k = Ok v -> In k (map fst d).
Proof.
  induction d as [|[k' v'] d IH]; simpl; intro H; [discriminate|].
  destruct (Z.eqb_spec k k') as [->|]; [left; reflexivity | right; apply IH, H].
Qed.

(** Parents and children agree: when the keys of [links] are
    [0, ..., N-1], and every link with a nonzero coefficient has its parent
    among them and a lag [tau <= 0], the node [w] is a lagged parent of [v]
    exactly when [v] is a lagged child of [w] in the children computed by
    [_get_children]. *)
Theorem lagged_parents_children_dual links children v w ps cs :
  map fst links = zrange (Z.of_nat (List.length links)) ->
  (forall j lps, dget links j = Ok lps -> forall lp, In lp lps ->
     let '(i, tau, coeff) := link_view lp in
     Qeq_bool coeff 0 = false -> 0 <= i < Z.of_nat (List.length links) /\ tau <= 0) ->
  _get_children links = Ok children ->
  _get_lagged_parents links v false = Ok ps ->
  _get_lagged_children w children false = Ok cs ->
  (In w ps <-> In v cs).
Proof.
  intros Hkeys Hpar Hch Hp Hc.
  rewrite _get_children_spec in Hch; [| exact Hkeys |].
  2: { intros j lps Hj lp Hlp. specialize (Hpar j lps Hj lp Hlp).
       destruct (link_view lp) as [[i tau] c]. intro H. apply Hpar, H. }
  injection Hch as <-.
  destruct v as [vv lv], w as [wv lw].
  unfold _get_lagged_parents in Hp. destruct (dget links vv) as [lps|e|] eqn:Ev; try discriminate.
  simpl in Hp. injection Hp as <-.
  unfold _get_lagged_children in Hc.
  destruct (dget _ wv) as [cs0|e|] eqn:Ew; try discriminate. simpl in Hc. injection Hc as <-.
  apply dget_map_inv in Ew. subst cs0.
  split.
  - intro Hin. apply in_flat_map in Hin as [lp [Hlp Hw]].
    specialize (Hpar vv lps Ev lp Hlp).
    destruct (link_view lp) as [[i tau] c] eqn:Elv.
    destruct (Qeq_bool c 0) eqn:Ec; simpl in Hw; [destruct Hw|].
    destruct Hw as [Hw|[]]. injection Hw as <- <-.
    destruct (Hpar eq_refl) as [_ Ht].
    apply in_flat_map. exists (vv, Z.abs tau). split.
    + unfold children_of. apply in_flat_map. exists vv. split.
      * rewrite <- Hkeys. exact (dget_In_keys _ _ _ Ev).
      * rewrite Ev. apply in_flat_map. exists lp. split; [exact Hlp|].
        rewrite Elv, Z.eqb_refl, Ec. left. reflexivity.
    + simpl. left. f_equal. lia.
  - intro Hin. apply in_flat_map in Hin as [[k t] [Hk Hv]].
    simpl in Hv. destruct Hv as [Hv|[]]. injection Hv as -> Hlv.
    unfold children_of in Hk. apply in_flat_map in Hk as [j [_ Hk]].
    destruct (dget links j) as [lpsj|e|] eqn:Ej; [|destruct Hk|destruct Hk].
    apply in_flat_map in Hk as [lp [Hlp Hk]].
    specialize (Hpar j lpsj Ej lp Hlp).
    destruct (link_view lp) as [[i tau] c] eqn:Elv.
    destruct ((i =? wv) && negb (Qeq_bool c 0)) eqn:Eb; [|destruct Hk].
    destruct Hk as [Hk|[]]. injection Hk as Hj Htt. subst j t.
    apply andb_true_iff in Eb as [Ei Ec]. apply Z.eqb_eq in Ei. subst i.
    apply negb_true_iff in Ec. rewrite Ev in Ej. injection Ej as <-.
    destruct (Hpar Ec) as [_ Ht].
    apply in_flat_map. exists lp. split; [exact Hlp|]. rewrite Elv, Ec. simpl.
    left. f_equal. lia.
Qed.

Lemma lagged_parents_children_dual_witness :
  _get_children lagged_selection_links = Ok [(0, []); (1, [(0, 1)])] /\
  _get_lagged_parents lagged_selection_links (0, 0) false = Ok [(1, -1)] /\
  _get_lagged_children (1, -1) [(0, []); (1, [(0, 1)])] false = Ok [(0, 0)] /\
  In (0, 0) [(0, 0)].
Proof.
  split; [vm_compute; reflexivity|]. split; [reflexivity|]. split; [reflexivity|].
  refine (proj1 (lagged_parents_children_dual lagged_selection_links [(0, []); (1, [(0, 1)])]
                   (0, 0) (1, -1) [(1, -1)] [(0, 0)] eq_refl _ eq_refl eq_refl eq_refl)
            (or_introl eq_refl)).
  intros j lps H lp Hlp. simpl in H.
  repeat match goal with
         | H : context [if ?c then _ else _] |- _ => destruct c
         end; try discriminate H;
  injection H as <-; simpl in Hlp;
  repeat match goal with
         | H : _ \/ _ |- _ => destruct H as [<-|H]
         | H : False |- _ => destruct H
         end; simpl; lia.
Defined.

(** ** The bound of the ancestor search *)

Lemma anc_visit_bound mode conds varlag st par :
  anc_bounded mode st ->
  anc_bounded mode (anc_visit mode conds varlag st par) /\
  anc_grows mode (a_max_lag st) (a_max_lag (anc_visit mode conds varlag st par)).
Proof.
  intros [Hm Hb]. unfold anc_bounded, anc_grows, anc_visit. destruct par as [i tau].
  destruct (negb (mem (i, tau) conds) && negb (mem (i, tau) (anc_y st))); [|split; [split; assumption | destruct mode; simpl; lia]].
  destruct mode; cbv beta iota.
  - match goal with |- context [negb (_repeating ?l ?s) || false] =>
      destruct (negb (_repeating l s) || false) end; simpl; [|split; [split; assumption | lia]].
    split; [split; [lia|] | lia].
    intros n Hn. apply in_app_or in Hn as [Hn|[<-|[]]]; simpl.
    + specialize (Hb n Hn). lia.
    + lia.
  - match goal with |- context [false || ?c] => destruct (false || c) eqn:E end;
      simpl; [|split; [split; assumption | reflexivity]].
    apply Z.leb_le in E. split; [split; [exact I|] | reflexivity].
    intros n Hn. apply in_app_or in Hn as [Hn|[<-|[]]]; [apply Hb, Hn | exact E].
Qed.

Lemma anc_grows_trans mode m1 m2 m3 :
  anc_grows mode m1 m2 -> anc_grows mode m2 m3 -> anc_grows mode m1 m3.
Proof. destruct mode; simpl; lia. Qed.

Lemma anc_level_bound links mode conds this_level : forall st st',
  anc_level links mode conds this_level st = Ok st' ->
  anc_bounded mode st -> anc_bounded mode st' /\ anc_grows mode (a_max_lag st) (a_max_lag st').
Proof.
  unfold anc_level. intros st st' H Hst.
  assert (Hgen : forall acc, (forall s, acc = Ok s -> anc_bounded mode s /\
                                   anc_grows mode (a_max_lag st) (a_max_lag s)) ->
    fold_left (fun acc varlag =>
      st1 <- acc ;; pars <- _get_lagged_parents links varlag false ;;
      Ok (fold_left (anc_visit mode conds varlag) pars st1)) this_level acc = Ok st' ->
    anc_bounded mode st' /\ anc_grows mode (a_max_lag st) (a_max_lag st')).
  { clear H. induction this_level as [|v l IH]; intros acc Hacc Hf; simpl in Hf.
    - apply Hacc, Hf.
    - refine (IH _ _ Hf). intros s Hs.
      destruct acc as [s1|e|]; try discriminate. simpl in Hs.
      destruct (_get_lagged_parents links v false) as [pars|e|]; try discriminate.
      injection Hs as <-. destruct (Hacc s1 eq_refl) as [Hb Hg].
      clear -Hb Hg. revert s1 Hb Hg. induction pars as [|p pars IHp]; intros s1 Hb Hg; simpl;
        [split; assumption|].
      destruct (anc_visit_bound mode conds v s1 p Hb) as [Hb' Hg'].
      apply IHp; [exact Hb' | exact (anc_grows_trans _ _ _ _ Hg Hg')]. }
  apply (Hgen (Ok st)); [|exact H]. intros s Hs. injection Hs as <-.
  split; [exact Hst | destruct mode; simpl; lia].
Qed.

Lemma anc_while_bound links mode conds : forall fuel this_level st st',
  anc_while fuel links mode conds this_level st = Ok st' ->
  anc_bounded mode st -> anc_bounded mode st' /\ anc_grows mode (a_max_lag st) (a_max_lag st').
Proof.
  induction fuel as [|fuel IH]; intros this_level st st' H Hst; simpl in H; [discriminate|].
  destruct this_level as [|v l]; [injection H as <-; split; [exact Hst | destruct mode; simpl; lia]|].
  destruct (anc_level _ _ _ _ _) as [st1|e|] eqn:E; try discriminate. simpl in H.
  destruct (anc_level_bound _ _ _ _ _ _ E Hst) as [Hb1 Hg1].
  destruct (IH _ _ _ H Hb1) as [Hb2 Hg2]. split; [exact Hb2|].
  exact (anc_grows_trans _ _ _ _ Hg1 Hg2).
Qed.

Lemma anc_grows_abs mode m m' :
  (match mode with NonRepeating => 0 <= m | MaxLagMode => True end) ->
  anc_grows mode m m' -> Z.abs m <= Z.abs m'.
Proof. destruct mode; simpl; intros; [|subst]; lia. Qed.

Lemma anc_fold_bound fuel links mode conds :
  forall (Ys : list node) (d : ndict (list node)) (m : Z) (d' : ndict (list node)) (m' : Z),
  (match mode with NonRepeating => 0 <= m | MaxLagMode => True end) ->
  (forall y l n, nget d y = Some l -> In n l -> Z.abs (snd n) <= Z.abs m) ->
  fold_left (fun acc y => a <- acc ;; anc_for_y fuel links mode conds a y) Ys (Ok (d, m))
    = Ok (d', m') ->
  (match mode with NonRepeating => 0 <= m' | MaxLagMode => True end) /\
  anc_grows mode m m' /\
  (forall y l n, nget d' y = Some l -> In n l -> Z.abs (snd n) <= Z.abs m') /\
  (mode = NonRepeating -> forall y, In y Ys -> Z.abs (snd y) <= m').
Proof.
  induction Ys as [|[j tau] Ys IH]; intros d m d' m' Hm Hd H; simpl in H.
  - injection H as <- <-. split; [exact Hm|]. split; [destruct mode; simpl; lia|].
    split; [exact Hd | intros _ _ []].
  - set (max1 := match mode with NonRepeating => Z.max m (Z.abs tau) | MaxLagMode => m end) in H.
    match type of H with context [anc_while ?f ?l ?md ?c ?tl ?s] =>
      destruct (anc_while f l md c tl s) as [st|e|] eqn:Ew end; simpl in H;
      [| exfalso; clear -H; induction Ys as [|? ? IHy]; simpl in H; [discriminate | exact (IHy H)]
       | exfalso; clear -H; induction Ys as [|? ? IHy]; simpl in H; [discriminate | exact (IHy H)]].
    assert (Hb0 : anc_bounded mode (mk_anc_state
              (match nget d (j, tau) with Some l => l | None => [] end) max1 [] [])).
    { unfold anc_bounded, max1. simpl. split; [destruct mode; simpl; lia|].
      intros n Hn. destruct (nget d (j, tau)) as [l|] eqn:El; [|destruct Hn].
      specialize (Hd _ _ _ El Hn). destruct mode; lia. }
    destruct (anc_while_bound _ _ _ _ _ _ _ Ew Hb0) as [[Hm1 Hb1] Hg1]. simpl in Hg1.
    assert (Hd1 : forall y l n, nget (nset d (j, tau) (anc_y st)) y = Some l -> In n l ->
                    Z.abs (snd n) <= Z.abs (a_max_lag st)).
    { intros y l n Hy Hn. destruct (nget_nset _ _ _ _ _ Hy) as [Hy' | ->]; [|apply Hb1, Hn].
      specialize (Hd _ _ _ Hy' Hn).
      assert (Z.abs m <= Z.abs max1) by (unfold max1; destruct mode; lia).
      assert (Hm0 : match mode with NonRepeating => 0 <= max1 | MaxLagMode => True end)
        by (unfold max1; destruct mode; simpl in *; [lia | exact I]).
      pose proof (anc_grows_abs mode max1 (a_max_lag st) Hm0 Hg1). lia. }
    destruct (IH _ _ _ _ Hm1 Hd1 H) as [Hm' [Hg' [Hd' HY']]].
    split; [exact Hm'|]. split.
    + assert (Hg0 : anc_grows mode m max1) by (unfold max1, anc_grows; destruct mode; lia).
      apply (anc_grows_trans _ _ _ _ (anc_grows_trans _ _ _ _ Hg0 Hg1) Hg').
    + split; [exact Hd'|]. intros Hmode y [<-|Hy]; [|apply HY'; assumption].
      subst mode. simpl in *. unfold max1 in Hg1. lia.
Qed.

Lemma nget_empty_lists (Y : list node) y l :
  nget (map (fun y => (y, @nil node)) Y) y = Some l -> l = [].
Proof.
  induction Y as [|y0 Y IH]; simpl; intro H; [discriminate|].
  destruct (node_eqb y y0); [injection H as <-; reflexivity | apply IH, H].
Qed.

(** In mode ['non_repeating'], the returned bound [max_lag] is
    nonnegative, at least the absolute lag of every node of [Y], and at least
    the absolute lag of every ancestor returned. *)
Theorem ancestors_within_max_lag fuel links sel Y conds ml anc m :
  _get_non_blocked_ancestors fuel links sel Y conds NonRepeating ml = Ok (anc, m) ->
  0 <= m /\ (forall y, In y Y -> Z.abs (snd y) <= m) /\
  (forall y l n, nget anc y = Some l -> In n l -> Z.abs (snd n) <= m).
Proof.
  unfold _get_non_blocked_ancestors. simpl. intro H.
  assert (Hd0 : forall y l (n : node), nget (map (fun y => (y, @nil node)) (dedup Y)) y = Some l ->
                 In n l -> Z.abs (snd n) <= Z.abs 0)
    by (intros y l n Hy Hn; rewrite (nget_empty_lists _ _ _ Hy) in Hn; destruct Hn).
  destruct (anc_fold_bound fuel links NonRepeating _ Y _ 0 anc m ltac:(simpl; lia) Hd0 H)
    as [Hm [_ [Hd HY]]].
  split; [exact Hm|]. split; [exact (HY eq_refl)|].
  intros y l n Hy Hn. specialize (Hd _ _ _ Hy Hn). lia.
Qed.

Lemma ancestors_within_max_lag_witness :
  _get_non_blocked_ancestors 10 lagged_selection_links [] [(0, 0)] None NonRepeating None
    = Ok ([((0, 0), [(1, -1)])], 1) /\ Z.abs (-1) <= 1.
Proof.
  assert (H : _get_non_blocked_ancestors 10 lagged_selection_links [] [(0, 0)] None NonRepeating None
              = Ok ([((0, 0), [(1, -1)])], 1)) by (vm_compute; reflexivity).
  split; [exact H|].
  exact (proj2 (proj2 (ancestors_within_max_lag _ _ _ _ _ _ _ _ H)) (0, 0) [(1, -1)] (1, -1)
           eq_refl (or_introl eq_refl)).
Defined.

(** In mode ['max_lag'] with a given [max_lag], the search returns that
    [max_lag] unchanged and only ancestors whose absolute lag is at most
    [abs(max_lag)]. *)
Theorem ancestors_max_lag_mode fuel links sel Y conds ml anc m :
  _get_non_blocked_ancestors fuel links sel Y conds MaxLagMode (Some ml) = Ok (anc, m) ->
  m = ml /\ (forall y l n, nget anc y = Some l -> In n l -> Z.abs (snd n) <= Z.abs ml).
Proof.
  unfold _get_non_blocked_ancestors. simpl. intro H.
  assert (Hd0 : forall y l (n : node), nget (map (fun y => (y, @nil node)) (dedup Y)) y = Some l ->
                 In n l -> Z.abs (snd n) <= Z.abs ml)
    by (intros y l n Hy Hn; rewrite (nget_empty_lists _ _ _ Hy) in Hn; destruct Hn).
  destruct (anc_fold_bound fuel links MaxLagMode _ Y _ ml anc m I Hd0 H)
    as [_ [Hg [Hd _]]].
  simpl in Hg. subst m. split; [reflexivity | exact Hd].
Qed.

Lemma ancestors_max_lag_mode_witness :
  _get_non_blocked_ancestors 10 [(0, [LP2 0 (-1)])] [] [(0, 0)] None MaxLagMode (Some 2)
    = Ok ([((0, 0), [(0, -1); (0, -2)])], 2) /\ Z.abs (-2) <= Z.abs 2.
Proof.
  assert (H : _get_non_blocked_ancestors 10 [(0, [LP2 0 (-1)])] [] [(0, 0)] None MaxLagMode (Some 2)
              = Ok ([((0, 0), [(0, -1); (0, -2)])], 2)) by (vm_compute; reflexivity).
  split; [exact H|].
  exact (proj2 (ancestors_max_lag_mode _ _ _ _ _ _ _ _ H) (0, 0) [(0, -1); (0, -2)] (0, -2)
           eq_refl (or_intror (or_introl eq_refl))).
Defined.

(** ** Graph compilation: shape of the result *)

Lemma zrange_In t n : In t (zrange n) -> 0 <= t < n.
Proof.
  unfold zrange. intro H. apply in_map_iff in H as [m [<- Hm]]. apply in_seq in Hm. lia.
Qed.

Lemma zrange_succ n : 0 <= n -> zrange (n + 1) = zrange n ++ [n].
Proof.
  intro Hn. unfold zrange. rewrite Z2Nat.inj_add by lia. rewrite seq_app, map_app.
  replace (Z.to_nat 1) with 1%nat by reflexivity. simpl. rewrite Z2Nat.id by lia. reflexivity.
Qed.

Lemma dhas_In {A : Type} (d : zdict A) k : dhas d k = true -> In k (map fst d).
Proof.
  induction d as [|[k' v] d IH]; simpl; [discriminate|].
  intro H. apply orb_true_iff in H as [H|H]; [apply Z.eqb_eq in H; left; auto | right; auto].
Qed.

Lemma dget_In {A : Type} (d : zdict A) k v : dget d k = Ok v -> In (k, v) d.
Proof.
  induction d as [|[k' v'] d IH]; simpl; [discriminate|].
  destruct (Z.eqb_spec k k') as [->|_]; intro H; [injection H as <-; left; reflexivity | right; auto].
Qed.

Lemma In_dset_aux {A : Type} (d : zdict A) k v k' v' :
  In (k', v') (dset_aux d k v) -> In (k', v') d \/ v' = v.
Proof.
  induction d as [|[k0 v0] d IH]; simpl; [tauto|].
  destruct (k =? k0); simpl; intros [H|H].
  - injection H as _ <-. right; reflexivity.
  - left; right; exact H.
  - left; left; exact H.
  - destruct (IH H); [left; right; assumption | right; assumption].
Qed.

Lemma In_dset {A : Type} (d : zdict A) k v k' v' :
  In (k', v') (dset d k v) -> In (k', v') d \/ v' = v.
Proof.
  unfold dset. destruct (dhas d k); [apply In_dset_aux|].
  intro H. apply in_app_or in H as [H|[H|[]]]; [left; exact H | injection H as _ <-; right; reflexivity].
Qed.

Lemma map_fst_dset_aux {A : Type} (d : zdict A) k v : map fst (dset_aux d k v) = map fst d.
Proof.
  induction d as [|[k0 v0] d IH]; simpl; [reflexivity|].
  destruct (k =? k0); simpl; [reflexivity | rewrite IH; reflexivity].
Qed.

Lemma dappend_keys {A : Type} (d d' : zdict (list A)) k x :
  dappend d k x = Ok d' -> map fst d' = map fst d.
Proof.
  unfold dappend. destruct (dget d k) as [v|e|] eqn:E; simpl; try discriminate.
  intro H. injection H as <-. unfold dset. rewrite (dget_dhas _ _ _ E). apply map_fst_dset_aux.
Qed.

Lemma dappend_In {A : Type} (d d' : zdict (list A)) k x k' l' a :
  dappend d k x = Ok d' -> In (k', l') d' -> In a l' ->
  a = x \/ exists k'' l, In (k'', l) d /\ In a l.
Proof.
  unfold dappend. destruct (dget d k) as [v|e|] eqn:E; simpl; try discriminate.
  intros H Hin Ha. injection H as <-. apply In_dset in Hin as [Hin| ->].
  - right. exists k', l'. auto.
  - apply in_app_or in Ha as [Ha|[<-|[]]]; [|left; reflexivity].
    right. exists k, v. split; [apply dget_In; exact E | exact Ha].
Qed.

Lemma dappend_Ok {A : Type} (d : zdict (list A)) k x :
  In k (map fst d) -> exists d', dappend d k x = Ok d'.
Proof.
  intro H. destruct (In_map_fst_dget _ _ H) as [v E]. unfold dappend. rewrite E. simpl. eauto.
Qed.

Lemma map_fst_dset_fresh {A : Type} (d : zdict A) n v :
  0 <= n -> map fst d = zrange n -> map fst (dset d n v) = zrange (n + 1).
Proof.
  intros Hn Hk. unfold dset. destruct (dhas d n) eqn:E.
  - exfalso. apply dhas_In in E. rewrite Hk in E. apply zrange_In in E. lia.
  - rewrite map_app, Hk, zrange_succ by exact Hn. reflexivity.
Qed.

Lemma links_ok_mono L L' d : L <= L' -> links_ok L d -> links_ok L' d.
Proof.
  intros HL H k lps lp Hk Hlp. destruct (H _ _ _ Hk Hlp) as [p [t [-> [Hp Ht]]]].
  exists p, t. split; [reflexivity | lia].
Qed.

Lemma links_ok_dset L d k : links_ok L d -> links_ok L (dset d k []).
Proof.
  intros H k' lps lp Hk Hlp. apply In_dset in Hk as [Hk| ->]; [exact (H _ _ _ Hk Hlp) | destruct Hlp].
Qed.

Lemma links_ok_dappend L d d' k p t :
  links_ok L d -> 0 <= p < L -> t <= 0 -> dappend d k (LP2 p t) = Ok d' -> links_ok L d'.
Proof.
  intros H Hp Ht E k' lps lp Hk Hlp.
  destruct (dappend_In _ _ _ _ _ _ _ E Hk Hlp) as [->|[k'' [l [Hk'' Hl]]]].
  - exists p, t. auto.
  - exact (H _ _ _ Hk'' Hl).
Qed.

Lemma StronglySorted_snoc (l : list Z) k :
  StronglySorted Z.lt l -> (forall s, In s l -> s < k) -> StronglySorted Z.lt (l ++ [k]).
Proof.
  induction l as [|a l IH]; simpl; intros H Hk.
  - repeat constructor.
  - inversion H as [|? ? Hl Ha]; subst. constructor; [apply IH; auto|].
    apply Forall_app. split; [exact Ha | constructor; [apply Hk; left; reflexivity | constructor]].
Qed.

Lemma insert_edge_wf N st i j tau edge_type :
  graph_wf N st -> 0 <= i < N -> 0 <= j < N -> 0 <= tau ->
  exists st', insert_edge st i j tau edge_type = Ok st' /\ graph_wf N st'.
Proof.
  destruct st as [links sel k]. unfold graph_wf. simpl.
  intros [Hk [HN [Hl [Hs Hsr]]]] Hi Hj Ht. unfold insert_edge. simpl.
  assert (Hin : forall v, 0 <= v < N -> In v (map fst links))
    by (intros v Hv; rewrite Hk; apply In_zrange; lia).
  assert (Hk1 : map fst (dset links k []) = zrange (k + 1)) by (apply map_fst_dset_fresh; [lia | exact Hk]).
  assert (Hin1 : forall v, 0 <= v <= k -> In v (map fst (dset links k [])))
    by (intros v Hv; rewrite Hk1; apply In_zrange; lia).
  assert (Hl1 : links_ok (k + 1) (dset links k []))
    by (apply links_ok_dset, (links_ok_mono k); [lia | exact Hl]).
  destruct (String.eqb edge_type "-->").
  { destruct (dappend_Ok links j (LP2 i (- tau)) (Hin j Hj)) as [d' E]. rewrite E. simpl.
    eexists. split; [reflexivity|]. simpl.
    split; [rewrite (dappend_keys _ _ _ _ E); exact Hk|]. split; [lia|].
    split; [apply (links_ok_dappend _ _ _ _ _ _ Hl) in E; [exact E | lia | lia]|].
    split; [exact Hs | exact Hsr]. }
  destruct (String.eqb edge_type "<--").
  { destruct (dappend_Ok links i (LP2 j (- tau)) (Hin i Hi)) as [d' E]. rewrite E. simpl.
    eexists. split; [reflexivity|]. simpl.
    split; [rewrite (dappend_keys _ _ _ _ E); exact Hk|]. split; [lia|].
    split; [apply (links_ok_dappend _ _ _ _ _ _ Hl) in E; [exact E | lia | lia]|].
    split; [exact Hs | exact Hsr]. }
  destruct (String.eqb edge_type "<->").
  { destruct (dappend_Ok _ i (LP2 k 0) (Hin1 i ltac:(lia))) as [d2 E2]. rewrite E2. simpl.
    assert (Hin2 : In j (map fst d2))
      by (rewrite (dappend_keys _ _ _ _ E2), Hk1; apply In_zrange; lia).
    destruct (dappend_Ok _ j (LP2 k (- tau)) Hin2) as [d3 E3]. rewrite E3. simpl.
    eexists. split; [reflexivity|]. simpl.
    split; [rewrite (dappend_keys _ _ _ _ E3), (dappend_keys _ _ _ _ E2); exact Hk1|].
    split; [lia|].
    split; [apply (links_ok_dappend _ _ _ _ _ _ Hl1) in E2; [|lia|lia];
            apply (links_ok_dappend _ _ _ _ _ _ E2) in E3; [exact E3 | lia | lia]|].
    split; [exact Hs | intros s Hs'; specialize (Hsr s Hs'); lia]. }
  destruct (String.eqb edge_type "---").
  { destruct (dappend_Ok _ k (LP2 i (- tau)) (Hin1 k ltac:(lia))) as [d2 E2]. rewrite E2. simpl.
    assert (Hin2 : In k (map fst d2))
      by (rewrite (dappend_keys _ _ _ _ E2), Hk1; apply In_zrange; lia).
    destruct (dappend_Ok _ k (LP2 j 0) Hin2) as [d3 E3]. rewrite E3. simpl.
    eexists. split; [reflexivity|]. simpl.
    split; [rewrite (dappend_keys _ _ _ _ E3), (dappend_keys _ _ _ _ E2); exact Hk1|].
    split; [lia|].
    split; [apply (links_ok_dappend _ _ _ _ _ _ Hl1) in E2; [|lia|lia];
            apply (links_ok_dappend _ _ _ _ _ _ E2) in E3; [exact E3 | lia | lia]|].
    split; [apply StronglySorted_snoc; [exact Hs | intros s Hs'; specialize (Hsr s Hs'); lia]|].
    intros s Hs'. apply in_app_or in Hs' as [Hs'|[<-|[]]]; [specialize (Hsr s Hs'); lia | lia]. }
  eexists. split; [reflexivity|]. simpl. auto.
Qed.

Lemma graph_init_wf graph : graph_wf (graph_N graph) (graph_init graph).
Proof.
  unfold graph_wf, graph_init. simpl. split; [rewrite map_map; apply map_id|].
  split; [unfold graph_N; lia|].
  split; [|split; [constructor | intros _ []]].
  intros k lps lp Hk Hlp. apply in_map_iff in Hk as [j [Hj _]]. injection Hj as _ <-. destruct Hlp.
Qed.

Lemma where_cells_range graph i j tau :
  In (i, j, tau) (where_cells graph) ->
  0 <= i < graph_N graph /\ 0 <= j < graph_N graph /\ 0 <= tau < graph_T graph.
Proof.
  unfold where_cells. intro H.
  apply in_flat_map in H as [i' [Hi H]]. apply in_flat_map in H as [j' [Hj H]].
  apply in_flat_map in H as [t' [Ht H]].
  destruct (String.eqb _ _); [destruct H|]. destruct H as [H|[]]. injection H as <- <- <-.
  apply zrange_In in Hi, Hj, Ht. auto.
Qed.

Lemma graph_fold_Raise graph cells e : fold_left (graph_step graph) cells (Raise e) = Raise e.
Proof. induction cells; simpl; auto. Qed.

Lemma graph_fold_OutOfFuel graph cells : fold_left (graph_step graph) cells OutOfFuel = OutOfFuel.
Proof. induction cells; simpl; auto. Qed.

Lemma graph_fold_checks graph : forall cells acc st,
  fold_left (graph_step graph) cells acc = Ok st ->
  forall i j tau, In (i, j, tau) cells -> exists b, cell_action graph i j tau = Ok b.
Proof.
  induction cells as [|[[i j] tau] cells IH]; simpl; intros acc st H i' j' tau' Hin; [destruct Hin|].
  destruct Hin as [Heq|Hin]; [|exact (IH _ _ H _ _ _ Hin)].
  injection Heq as <- <- <-. unfold graph_step at 2 in H.
  destruct acc as [s|e|]; simpl in H;
    [| rewrite graph_fold_Raise in H; discriminate | rewrite graph_fold_OutOfFuel in H; discriminate].
  destruct (cell_action graph i j tau) as [b|e|]; simpl in H; [eauto | |];
    [rewrite graph_fold_Raise in H | rewrite graph_fold_OutOfFuel in H]; discriminate.
Qed.

Lemma graph_fold_result graph N : forall cells st,
  graph_wf N st ->
  (forall i j tau, In (i, j, tau) cells -> 0 <= i < N /\ 0 <= j < N /\ 0 <= tau) ->
  (exists st', fold_left (graph_step graph) cells (Ok st) = Ok st' /\ graph_wf N st') \/
  (exists e i j tau, In (i, j, tau) cells /\ cell_action graph i j tau = Raise e /\
     fold_left (graph_step graph) cells (Ok st) = Raise e).
Proof.
  induction cells as [|[[i j] tau] cells IH]; simpl; intros st Hst Hr; [left; eauto|].
  destruct (Hr i j tau (or_introl eq_refl)) as [Hi [Hj Ht]].
  assert (Hr' : forall i j tau, In (i, j, tau) cells -> 0 <= i < N /\ 0 <= j < N /\ 0 <= tau)
    by (intros; apply Hr; right; assumption).
  unfold graph_step at 2. simpl.
  destruct (cell_action graph i j tau) as [b|e|] eqn:Ec; simpl.
  - assert (Hs1 : exists st1, (if b then insert_edge st i j tau (cell graph i j tau) else Ok st) = Ok st1
                              /\ graph_wf N st1)
      by (destruct b; [apply insert_edge_wf; assumption | eauto]).
    destruct Hs1 as [st1 [-> Hst1]].
    destruct (IH st1 Hst1 Hr') as [H|[e [i' [j' [tau' [Hin H]]]]]]; [left; exact H|].
    right. exists e, i', j', tau'. split; [right; exact Hin | exact H].
  - right. exists e, i, j, tau. split; [left; reflexivity|]. split; [exact Ec|].
    apply graph_fold_Raise.
  - exfalso. unfold cell_action in Ec. destruct (tau =? 0).
    + destruct (_reverse_patt (cell graph j i 0)) eqn:Er; simpl in Ec; try discriminate.
      * destruct (negb _); [discriminate|]. destruct (j >? i); discriminate.
      * revert Er. destruct (cell graph j i 0) as [|? [|? [|? ?]]]; discriminate.
    + destruct (existsb _ _); discriminate.
Qed.

Lemma length_zrange n : List.length (zrange n) = Z.to_nat n.
Proof. unfold zrange. rewrite length_map, length_seq. reflexivity. Qed.

Lemma get_links_from_graph_shape graph links obs sel :
  get_links_from_graph graph = Ok (links, obs, sel) ->
  obs = zrange (graph_N graph) /\
  graph_wf (graph_N graph) (mk_gstate links sel (Z.of_nat (List.length links))).
Proof.
  unfold get_links_from_graph.
  assert (Hr : forall i j tau, In (i, j, tau) (where_cells graph) ->
                 0 <= i < graph_N graph /\ 0 <= j < graph_N graph /\ 0 <= tau)
    by (intros i j tau H; destruct (where_cells_range _ _ _ _ H) as [? [? ?]]; repeat split; lia).
  destruct (graph_fold_result graph _ (where_cells graph) _ (graph_init_wf graph) Hr)
    as [[st [E Hwf]]|[e [? [? [? [_ [_ E]]]]]]]; rewrite E; simpl; intro H; [|discriminate].
  injection H as <- <- <-. split; [reflexivity|].
  destruct st as [l s k]. simpl.
  assert (Hk : Z.of_nat (List.length l) = k).
  { destruct Hwf as [Hkeys [HN _]]. simpl in *.
    rewrite <- length_map with (f := fst), Hkeys, length_zrange. lia. }
  rewrite Hk. exact Hwf.
Qed.

Lemma StronglySorted_zrange n : StronglySorted Z.lt (zrange n).
Proof.
  unfold zrange. induction (Z.to_nat n) as [|m IH]; [constructor|].
  rewrite seq_S, map_app. apply StronglySorted_snoc; [exact IH|].
  intros s Hs. apply in_map_iff in Hs as [t [<- Ht]]. apply in_seq in Ht. simpl. lia.
Qed.

Lemma valid_var_list_sorted N l :
  StronglySorted Z.lt l -> (forall s, In s l -> 0 <= s < N) -> valid_var_list N l = true.
Proof.
  intros Hs Hr. unfold valid_var_list.
  apply andb_true_iff. split; [apply andb_true_iff; split|].
  - apply forallb_forall. intros s Hin. specialize (Hr s Hin).
    apply andb_true_iff. split; [apply Z.leb_le | apply Z.ltb_lt]; lia.
  - clear Hr. induction l as [|a l IH]; [reflexivity|].
    inversion Hs as [|? ? Hl Ha]; subst. destruct l as [|b l']; [reflexivity|].
    change (sorted_Z (a :: b :: l')) with ((a <=? b) && sorted_Z (b :: l')).
    apply andb_true_iff. split; [inversion Ha; apply Z.leb_le; lia | exact (IH Hl)].
  - clear Hr. induction l as [|a l IH]; [reflexivity|].
    inversion Hs as [|? ? Hl Ha]; subst. simpl. rewrite (IH Hl), andb_true_r.
    destruct (existsb (Z.eqb a) l) eqn:E; [|reflexivity].
    apply existsb_exists in E as [x [Hx Hxe]]. apply Z.eqb_eq in Hxe. subst x.
    rewrite Forall_forall in Ha. specialize (Ha a Hx). lia.
Qed.

(** [get_links_from_graph] succeeds exactly when every nonempty cell
    passes the checks at the top of the loop body (a lag-0 cell agrees with
    [_reverse_patt] of its mirror cell, a lagged cell is ['-->'], ['<->'] or
    ['---']); otherwise it raises the error of a failing cell, a
    [ValueError] or an [IndexError], and the edge insertions themselves
    never fail. *)
Theorem get_links_from_graph_errors graph :
  ((exists r, get_links_from_graph graph = Ok r) <->
   (forall i j tau, In (i, j, tau) (where_cells graph) -> exists b, cell_action graph i j tau = Ok b)) /\
  (forall e, get_links_from_graph graph = Raise e ->
     (e = ValueError \/ e = IndexError) /\
     exists i j tau, In (i, j, tau) (where_cells graph) /\ cell_action graph i j tau = Raise e) /\
  get_links_from_graph graph <> OutOfFuel.
Proof.
  assert (Hr : forall i j tau, In (i, j, tau) (where_cells graph) ->
                 0 <= i < graph_N graph /\ 0 <= j < graph_N graph /\ 0 <= tau)
    by (intros i j tau H; destruct (where_cells_range _ _ _ _ H) as [? [? ?]]; repeat split; lia).
  assert (He : forall i j tau e, cell_action graph i j tau = Raise e -> e = ValueError \/ e = IndexError).
  { intros i j tau e. unfold cell_action. destruct (tau =? 0).
    - destruct (_reverse_patt (cell graph j i 0)) eqn:Er; simpl.
      + destruct (negb _); [intro H; injection H; auto|]. destruct (j >? i); discriminate.
      + revert Er. destruct (cell graph j i 0) as [|? [|? [|? ?]]]; simpl; try discriminate;
          intros H1 H2; injection H1; injection H2; intros; subst; auto.
      + discriminate.
    - destruct (existsb _ _); [discriminate | intro H; injection H; auto]. }
  unfold get_links_from_graph.
  destruct (graph_fold_result graph _ (where_cells graph) _ (graph_init_wf graph) Hr)
    as [[st [E _]]|[e [i [j [tau [Hin [Hc E]]]]]]]; rewrite E; simpl.
  - split; [split; [intros _; exact (graph_fold_checks _ _ _ _ E) | intros _; eauto]|].
    split; [intros e H; discriminate | discriminate].
  - split; [split; [intros [r H]; discriminate | intro H; destruct (H _ _ _ Hin) as [b Hb]; congruence]|].
    split; [|discriminate]. intros e' H. injection H as <-. split; [exact (He _ _ _ _ Hc)|].
    exists i, j, tau. auto.
Qed.

Lemma get_links_from_graph_errors_witness :
  get_links_from_graph [[[EmptyString; "o-o"%string]]] = Raise ValueError /\
  exists i j tau, In (i, j, tau) (where_cells [[[EmptyString; "o-o"%string]]]) /\
    cell_action [[[EmptyString; "o-o"%string]]] i j tau = Raise ValueError.
Proof.
  assert (H : get_links_from_graph [[[EmptyString; "o-o"%string]]] = Raise ValueError)
    by (vm_compute; reflexivity).
  split; [exact H|].
  exact (proj2 (proj1 (proj2 (get_links_from_graph_errors [[[EmptyString; "o-o"%string]]])) _ H)).
Defined.

(** The [links] that [get_links_from_graph] builds from a graph with [N]
    variables have the keys [0, ..., len(links) - 1] in order, with
    [N <= len(links)]; every entry is a pair [(p, t)] with [0 <= p < len(links)]
    and [t <= 0]; and [selection_vars] is strictly increasing and holds only
    added variables, in [[N, len(links))]. *)
Theorem get_links_from_graph_wf graph links obs sel :
  get_links_from_graph graph = Ok (links, obs, sel) ->
  map fst links = zrange (Z.of_nat (List.length links)) /\
  graph_N graph <= Z.of_nat (List.length links) /\
  links_ok (Z.of_nat (List.length links)) links /\
  StronglySorted Z.lt sel /\
  (forall s, In s sel -> graph_N graph <= s < Z.of_nat (List.length links)).
Proof.
  intro H. destruct (get_links_from_graph_shape _ _ _ _ H) as [_ [H1 [H2 [H3 [H4 H5]]]]].
  simpl in *. split; [exact H1|]. split; [lia|]. auto.
Qed.

Lemma get_links_from_graph_wf_witness :
  get_links_from_graph
    [[[EmptyString; EmptyString]; ["---"%string; "<->"%string]];
     [["---"%string; EmptyString]; [EmptyString; EmptyString]]]
  = Ok ([(0, [LP2 2 0]); (1, [LP2 2 (-1)]); (2, []); (3, [LP2 1 0; LP2 0 0])], [0; 1], [3]) /\
  links_ok 4 [(0, [LP2 2 0]); (1, [LP2 2 (-1)]); (2, []); (3, [LP2 1 0; LP2 0 0])].
Proof.
  assert (H : get_links_from_graph
                [[[EmptyString; EmptyString]; ["---"%string; "<->"%string]];
                 [["---"%string; EmptyString]; [EmptyString; EmptyString]]]
              = Ok ([(0, [LP2 2 0]); (1, [LP2 2 (-1)]); (2, []); (3, [LP2 1 0; LP2 0 0])], [0; 1], [3]))
    by (vm_compute; reflexivity).
  split; [exact H|].
  exact (proj1 (proj2 (proj2 (get_links_from_graph_wf _ _ _ _ H)))).
Defined.

(** Constructing [OracleCI(graph=graph)] (with [links=None]) ignores the
    [observed_vars] and [selection_vars] arguments, never fails the
    validation of the compiled variables, and raises exactly what
    [get_links_from_graph] raises: the oracle has the compiled [links],
    [observed_vars = range(N)] and the compiled [selection_vars]. *)
Theorem OracleCI_init_from_graph ov sv graph :
  OracleCI_init None ov sv (Some graph) =
  ('(l, ov', sv') <- get_links_from_graph graph ;; Ok (mk_oracle l ov' sv' [] None 0)).
Proof.
  unfold OracleCI_init.
  destruct (get_links_from_graph graph) as [[[l ov'] sv']|e|] eqn:E; simpl; [|reflexivity|reflexivity].
  destruct (get_links_from_graph_shape _ _ _ _ E) as [-> [_ [HN [_ [Hs Hsr]]]]]. simpl in *.
  rewrite valid_var_list_sorted; [simpl|apply StronglySorted_zrange|].
  - rewrite valid_var_list_sorted; [reflexivity | exact Hs|].
    intros s Hin. specialize (Hsr s Hin). lia.
  - intros s Hin. apply zrange_In in Hin. lia.
Qed.

(** ** [get_shortest_path] and [run_test] *)

(** On an oracle with an empty cache, [run_test(X, Y, Z)] answers
    "d-separated" exactly when [get_shortest_path(X, Y, Z)] with its default
    arguments ([max_lag=None], [compute_ancestors=False], [backdoor=False])
    returns [False], and raises (or runs forever) exactly when it does. *)
Theorem run_test_agrees_with_get_shortest_path fuel o X Y Z tau_max cut_off :
  dsepsets o = [] ->
  fst (run_test fuel o X Y Z tau_max cut_off) =
  (r <- fst (get_shortest_path fuel o X Y Z None false false) ;;
   Ok (test_result (match r with None => true | Some _ => false end))).
Proof.
  intro Hd. unfold run_test, get_shortest_path. rewrite Hd.
  destruct (query_key o X Y Z) as [[[X1 Y1] Z1]|e|]; simpl; try reflexivity.
  unfold _is_dsep.
  destruct (_get_max_lag_from_XYZ fuel (links o) (selection_vars o) X1 Y1 Z1) as [ml|e|];
    simpl; try reflexivity.
  destruct (_has_any_path fuel (links o) (selection_vars o) X1 Y1 Z1 ml false)
    as [[[|n p]|]|e|]; simpl; reflexivity.
Qed.

Lemma run_test_agrees_with_get_shortest_path_witness :
  dsepsets edge_oracle = [] /\
  fst (get_shortest_path 10 edge_oracle
         [(0, 0)] [(1, 0)] [] None false false) = Ok (Some [(0, 0); (1, 0)]) /\
  fst (run_test 10 edge_oracle
         [(0, 0)] [(1, 0)] [] 0 EmptyString) = Ok (test_result false).
Proof.
  assert (Hd : dsepsets edge_oracle = [])
    by reflexivity.
  assert (Hp : fst (get_shortest_path 10 edge_oracle
                      [(0, 0)] [(1, 0)] [] None false false) = Ok (Some [(0, 0); (1, 0)]))
    by (vm_compute; reflexivity).
  split; [exact Hd|]. split; [exact Hp|].
  rewrite (run_test_agrees_with_get_shortest_path 10 _ [(0, 0)] [(1, 0)] [] 0 EmptyString Hd), Hp.
  reflexivity.
Defined.

Lemma node_eqb_true (a b : node) : node_eqb a b = true -> a = b.
Proof.
  destruct a as [a1 a2], b as [b1 b2]. unfold node_eqb. simpl.
  intro H. apply andb_true_iff in H as [H1 H2]. apply Z.eqb_eq in H1, H2. subst. reflexivity.
Qed.

Lemma hd_error_rev_last {A : Type} (l : list A) d : l <> [] -> hd_error (rev l) = Some (last l d).
Proof.
  intro H. destruct (exists_last H) as [l' [a ->]].
  rewrite rev_app_distr, last_last. reflexivity.
Qed.

Lemma backtrace_while_ends conds : forall fuel m target path nd mk p,
  backtrace_while conds fuel m target path nd mk = Ok p -> path <> [] ->
  (exists s, p = path ++ s) /\ hd_error (rev p) = Some target.
Proof.
  induction fuel as [|f IH]; simpl; intros m target path nd mk p H Hne; [discriminate|].
  destruct (node_eqb (last path nd) target) eqn:E.
  - injection H as <-. apply node_eqb_true in E. split; [exists []; rewrite app_nil_r; reflexivity|].
    rewrite <- E. apply hd_error_rev_last, Hne.
  - destruct (pget_err m nd) as [e|e|]; simpl in H; try discriminate.
    destruct (entry_get e mk) as [[pn pm]|]; [|discriminate].
    match type of H with bind ?M _ = _ => destruct M as [mk'|e'|] end; simpl in H; try discriminate.
    destruct (IH _ _ _ _ _ _ H) as [[s ->] Hl]; [intro Hc; destruct path; discriminate|].
    split; [exists (pn :: s); rewrite <- app_assoc; reflexivity | exact Hl].
Qed.

Lemma backtrace_path_ends conds x fuel y c pred succ path :
  backtrace_path conds x fuel y c pred succ = Ok path ->
  hd_error path = Some x /\ hd_error (rev path) = Some y.
Proof.
  unfold backtrace_path. intro H.
  destruct (pget_err pred (fst c)) as [e|e|]; simpl in H; try discriminate.
  destruct (backtrace_while conds fuel pred x [fst c] (fst c) _) as [path1|e1|] eqn:E1;
    simpl in H; try discriminate.
  destruct (pget_err succ (fst c)) as [e2|e2|]; simpl in H; try discriminate.
  destruct (backtrace_while_ends _ _ _ _ _ _ _ _ E1 ltac:(discriminate)) as [[s1 ->] Hx].
  assert (Hne : rev ([fst c] ++ s1) <> []).
  { rewrite rev_app_distr. simpl. destruct (rev s1); discriminate. }
  destruct (backtrace_while_ends _ _ _ _ _ _ _ _ H Hne) as [[s2 ->] Hy].
  split; [|exact Hy]. rewrite <- Hx.
  destruct (rev ([fst c] ++ s1)) as [|a r]; [contradiction | reflexivity].
Qed.

Lemma has_path_over_Y_ends fuel links children conds max_lag backdoor x : forall Y p,
  has_path_over_Y fuel links children conds max_lag backdoor x Y = Ok (Some p) ->
  exists y, In y Y /\ hd_error p = Some x /\ hd_error (rev p) = Some y.
Proof.
  induction Y as [|y Y IH]; simpl; intros p H; [discriminate|].
  destruct (search_while _ _ _ _ _ _ _ _ _ _ _) as [[[fc pred] succ]|e|]; simpl in H; try discriminate.
  destruct fc as [c|].
  - destruct (backtrace_path conds x fuel y c pred succ) as [path|e|] eqn:E; simpl in H; try discriminate.
    injection H as <-. exists y. split; [left; reflexivity | exact (backtrace_path_ends _ _ _ _ _ _ _ _ E)].
  - destruct (IH p H) as [y' [Hy' Hp]]. exists y'. split; [right; exact Hy' | exact Hp].
Qed.

Lemma has_path_over_X_ends fuel links children conds max_lag backdoor Y : forall X p,
  has_path_over_X fuel links children conds max_lag backdoor X Y = Ok (Some p) ->
  exists x y, In x X /\ In y Y /\ hd_error p = Some x /\ hd_error (rev p) = Some y.
Proof.
  induction X as [|x X IH]; simpl; intros p H; [discriminate|].
  destruct (has_path_over_Y fuel links children conds max_lag backdoor x Y) as [[p'|]|e|] eqn:E;
    simpl in H; try discriminate.
  - injection H as <-. destruct (has_path_over_Y_ends _ _ _ _ _ _ _ _ _ E) as [y [Hy Hp]].
    exists x, y. split; [left; reflexivity | auto].
  - destruct (IH p H) as [x' [y [Hx [Hy Hp]]]]. exists x', y. split; [right; exact Hx | auto].
Qed.

Lemma query_key_observed o X Y Z X1 Y1 Z1 :
  query_key o X Y Z = Ok (X1, Y1, Z1) ->
  (forall n, In n X1 -> In (fst n) (observed_vars o)) /\
  (forall n, In n Y1 -> In (fst n) (observed_vars o)).
Proof.
  unfold query_key. intro H.
  destruct (translate_range (observed_vars o) X) as [[HX _]|[X' [HX [_ [HoX _]]]]];
    rewrite HX in H; simpl in H; [discriminate|].
  destruct (translate_range (observed_vars o) Y) as [[HY _]|[Y' [HY [_ [HoY _]]]]];
    rewrite HY in H; simpl in H; [discriminate|].
  destruct (translate (observed_vars o) Z) as [Z'|e|]; simpl in H; try discriminate.
  apply _check_XYZ_Ok_clean in H. symmetry in H.
  destruct (clean_XYZ_spec _ _ _ _ _ _ H) as [_ [_ [_ [HXs [HYs _]]]]].
  split; intros n Hn; [apply HoX, HXs, Hn | apply HoY, HYs, Hn].
Qed.

Lemma hd_error_filter {A : Type} (f : A -> bool) l a :
  hd_error l = Some a -> f a = true -> hd_error (filter f l) = Some a.
Proof. destruct l as [|b l]; simpl; intros H Hf; [discriminate|]. injection H as ->. rewrite Hf. reflexivity. Qed.

Lemma filter_rev {A : Type} (f : A -> bool) l : filter f (rev l) = rev (filter f l).
Proof.
  induction l as [|a l IH]; simpl; [reflexivity|].
  rewrite filter_app, IH. simpl. destruct (f a); simpl; [reflexivity | apply app_nil_r].
Qed.

Lemma get_shortest_path_found fuel o X Y Z ml ca bd q :
  fst (get_shortest_path fuel o X Y Z ml ca bd) = Ok (Some q) ->
  exists X1 Y1 Z1 m p, query_key o X Y Z = Ok (X1, Y1, Z1) /\
    _has_any_path fuel (links o) (selection_vars o) X1 Y1 Z1 m bd = Ok (Some p) /\
    p <> [] /\ q = observed_nodes (observed_vars o) p.
Proof.
  unfold get_shortest_path. intro H.
  destruct (query_key o X Y Z) as [[[X1 Y1] Z1]|e|]; simpl in H; try discriminate.
  match type of H with context [match ?M with Ok _ => _ | Raise _ => _ | OutOfFuel => _ end] =>
    destruct M as [m|e|] end; simpl in H; try discriminate.
  destruct (_has_any_path fuel (links o) (selection_vars o) X1 Y1 Z1 m bd) as [ap|e|] eqn:Ea;
    simpl in H; try discriminate.
  assert (Hq : (match ap with Some ((_ :: _) as p) => Some (observed_nodes (observed_vars o) p)
                | _ => None end) = Some q).
  { destruct ca;
    repeat match type of H with context [match ?M with Ok _ => _ | Raise _ => _ | OutOfFuel => _ end] =>
      destruct M as [[? ?]|? |]; simpl in H; try discriminate end;
    simpl in H; injection H as H; exact H. }
  destruct ap as [[|n p]|]; try discriminate. injection Hq as <-.
  exists X1, Y1, Z1, m, (n :: p). split; [reflexivity|]. split; [exact Ea|]. split; [discriminate | reflexivity].
Qed.

(** A path that [get_shortest_path] returns starts at a node of the
    translated and validated [X], ends at a node of the validated [Y], and
    holds only nodes whose variable is in [observed_vars]. *)
Theorem get_shortest_path_endpoints fuel o X Y Z ml ca bd q :
  fst (get_shortest_path fuel o X Y Z ml ca bd) = Ok (Some q) ->
  exists X1 Y1 Z1 x y, query_key o X Y Z = Ok (X1, Y1, Z1) /\ In x X1 /\ In y Y1 /\
    hd_error q = Some x /\ hd_error (rev q) = Some y /\
    (forall n, In n q -> In (fst n) (observed_vars o)).
Proof.
  intro H. destruct (get_shortest_path_found _ _ _ _ _ _ _ _ _ H)
    as [X1 [Y1 [Z1 [m [p [Hk [Ha [_ ->]]]]]]]].
  unfold _has_any_path in Ha.
  destruct (_get_children (links o)) as [ch|e|]; simpl in Ha; try discriminate.
  destruct (has_path_over_X_ends _ _ _ _ _ _ _ _ _ Ha) as [x [y [Hx [Hy [Hh Ht]]]]].
  destruct (query_key_observed _ _ _ _ _ _ _ Hk) as [HoX HoY].
  exists X1, Y1, Z1, x, y. split; [exact Hk|]. split; [exact Hx|]. split; [exact Hy|].
  assert (Hf : forall n : node, In (fst n) (observed_vars o) ->
                 existsb (Z.eqb (fst n)) (observed_vars o) = true)
    by (intros n Hn; apply existsb_exists; exists (fst n); split; [exact Hn | apply Z.eqb_refl]).
  unfold observed_nodes.
  split; [apply hd_error_filter; [exact Hh | apply Hf, HoX, Hx]|].
  split; [rewrite <- filter_rev; apply hd_error_filter; [exact Ht | apply Hf, HoY, Hy]|].
  intros n Hn. apply filter_In in Hn as [_ Hn].
  apply existsb_exists in Hn as [v [Hv Hve]]. apply Z.eqb_eq in Hve. rewrite Hve. exact Hv.
Qed.

Lemma get_shortest_path_endpoints_witness :
  fst (get_shortest_path 10 edge_oracle [(0, 0)] [(1, 0)] [] None true false)
    = Ok (Some [(0, 0); (1, 0)]) /\
  exists X1 Y1 Z1 x y, query_key edge_oracle [(0, 0)] [(1, 0)] [] = Ok (X1, Y1, Z1) /\
    In x X1 /\ In y Y1 /\ hd_error [(0, 0); (1, 0)] = Some x /\
    hd_error (rev [(0, 0); (1, 0)]) = Some y /\
    (forall n, In n [(0, 0); (1, 0)] -> In (fst n) (observed_vars edge_oracle)).
Proof.
  assert (H : fst (get_shortest_path 10 edge_oracle [(0, 0)] [(1, 0)] [] None true false)
              = Ok (Some [(0, 0); (1, 0)])) by (vm_compute; reflexivity).
  split; [exact H | exact (get_shortest_path_endpoints _ _ _ _ _ _ _ _ _ H)].
Defined.

(** ** Construction from [links]: [OracleCI.__init__] *)

Lemma sorted_nodup_StronglySorted : forall l : list Z,
  sorted_Z l = true -> nodup_Z l = true -> StronglySorted Z.lt l.
Proof.
  induction l as [|a l IH]; intros Hs Hn; [constructor|].
  simpl in Hn. apply andb_true_iff in Hn as [Hna Hn].
  assert (Hs' : sorted_Z l = true /\ forall b, hd_error l = Some b -> a <= b).
  { destruct l as [|b l']; [split; [reflexivity | discriminate]|].
    change (sorted_Z (a :: b :: l')) with ((a <=? b) && sorted_Z (b :: l')) in Hs.
    apply andb_true_iff in Hs as [Hab Hs]. split; [exact Hs|].
    intros b' Hb. injection Hb as <-. apply Z.leb_le, Hab. }
  destruct Hs' as [Hs' Hhd]. specialize (IH Hs' Hn).
  constructor; [exact IH|]. apply Forall_forall. intros b Hb.
  assert (Hne : a <> b).
  { intros <-. apply negb_true_iff in Hna. rewrite existsb_false_iff in Hna.
    specialize (Hna a Hb). rewrite Z.eqb_refl in Hna. discriminate. }
  destruct l as [|c l']; [destruct Hb|].
  specialize (Hhd c eq_refl).
  destruct Hb as [<-|Hb]; [lia|].
  inversion IH as [|? ? _ Hc]. rewrite Forall_forall in Hc. specialize (Hc b Hb). lia.
Qed.

Lemma valid_var_list_iff N l :
  valid_var_list N l = true <-> StronglySorted Z.lt l /\ (forall s, In s l -> 0 <= s < N).
Proof.
  split.
  - unfold valid_var_list. intro H. apply andb_true_iff in H as [H Hn].
    apply andb_true_iff in H as [Hr Hs]. split; [exact (sorted_nodup_StronglySorted _ Hs Hn)|].
    intros s Hin. rewrite forallb_forall in Hr. specialize (Hr s Hin).
    apply andb_true_iff in Hr as [H1 H2]. apply Z.leb_le in H1. apply Z.ltb_lt in H2. lia.
  - intros [Hs Hr]. exact (valid_var_list_sorted N l Hs Hr).
Qed.

Lemma OracleCI_init_links_eq links ov sv g :
  OracleCI_init (Some links) ov sv g =
  if (match ov with Some l => valid_var_list (Z.of_nat (List.length links)) l | None => true end) &&
     (match sv with Some l => valid_var_list (Z.of_nat (List.length links)) l | None => true end)
  then Ok (mk_oracle links (match ov with Some l => l | None => zrange (Z.of_nat (List.length links)) end)
             (match sv with Some l => l | None => [] end) [] None 0)
  else Raise ValueError.
Proof.
  unfold OracleCI_init. simpl.
  destruct ov as [l|]; [destruct (valid_var_list _ l)|]; destruct sv as [l'|];
    try destruct (valid_var_list _ l'); reflexivity.
Qed.

Lemma opt_valid_iff N (ov : option (list Z)) :
  (match ov with Some l => valid_var_list N l | None => true end) = true <->
  (forall l, ov = Some l -> StronglySorted Z.lt l /\ (forall v, In v l -> 0 <= v < N)).
Proof.
  destruct ov as [l|].
  - rewrite valid_var_list_iff. split; [intros H l' Hl'; injection Hl' as <-; exact H | intro H; apply H; reflexivity].
  - split; [intros _ l' Hl'; discriminate | reflexivity].
Qed.

(** [OracleCI(links=links, observed_vars=ov, selection_vars=sv)] succeeds
    exactly when each of [observed_vars] and [selection_vars] that is given
    is strictly increasing (sorted, no duplicates) with values in
    [range(len(links))]; it raises [ValueError] otherwise, and the [graph]
    argument is not read.  On success the oracle holds [links],
    [observed_vars] ([range(N)] if not given), [selection_vars] ([[]] if not
    given) and an empty [dsepsets]. *)
Theorem OracleCI_init_validation links ov sv g :
  ((exists o, OracleCI_init (Some links) ov sv g = Ok o) <->
   (forall l, ov = Some l ->
      StronglySorted Z.lt l /\ (forall v, In v l -> 0 <= v < Z.of_nat (List.length links))) /\
   (forall l, sv = Some l ->
      StronglySorted Z.lt l /\ (forall v, In v l -> 0 <= v < Z.of_nat (List.length links)))) /\
  (forall e, OracleCI_init (Some links) ov sv g = Raise e -> e = ValueError) /\
  (forall o, OracleCI_init (Some links) ov sv g = Ok o ->
     o = mk_oracle links (match ov with Some l => l | None => zrange (Z.of_nat (List.length links)) end)
           (match sv with Some l => l | None => [] end) [] None 0).
Proof.
  rewrite OracleCI_init_links_eq. rewrite <- !opt_valid_iff.
  destruct (match ov with Some l => _ | None => true end), (match sv with Some l => _ | None => true end);
    simpl.
  - split; [split; [intros _; split; reflexivity | intros _; eexists; reflexivity]|].
    split; [intros e H; discriminate | intros o H; injection H as <-; reflexivity].
  - split; [split; [intros [o H]; discriminate | intros [_ H]; discriminate]|].
    split; [intros e H; injection H as <-; reflexivity | intros o H; discriminate].
  - split; [split; [intros [o H]; discriminate | intros [H _]; discriminate]|].
    split; [intros e H; injection H as <-; reflexivity | intros o H; discriminate].
  - split; [split; [intros [o H]; discriminate | intros [H _]; discriminate]|].
    split; [intros e H; injection H as <-; reflexivity | intros o H; discriminate].
Qed.

(** ** The horizon: [OracleCI._get_max_lag_from_XYZ] *)

Lemma nonrep_bound_Y fuel links sel Y conds ml anc m :
  _get_non_blocked_ancestors fuel links sel Y conds NonRepeating ml = Ok (anc, m) ->
  0 <= m /\ (forall y, In y Y -> Z.abs (snd y) <= m).
Proof.
  unfold _get_non_blocked_ancestors. simpl. intro H.
  assert (Hd0 : forall y l (n : node), nget (map (fun y => (y, @nil node)) (dedup Y)) y = Some l ->
                 In n l -> Z.abs (snd n) <= Z.abs 0)
    by (intros y l n Hy Hn; rewrite (nget_empty_lists _ _ _ Hy) in Hn; destruct Hn).
  destruct (anc_fold_bound fuel links NonRepeating _ Y _ 0 anc m ltac:(simpl; lia) Hd0 H)
    as [Hm [_ [_ HY]]].
  exact (conj Hm (HY eq_refl)).
Qed.

(** The horizon [max_lag] that [_get_max_lag_from_XYZ] computes is
    nonnegative and at least the absolute lag of every node of [X], [Y] and
    [Z]. *)
Theorem _get_max_lag_from_XYZ_bound fuel links sel X Y Z m :
  _get_max_lag_from_XYZ fuel links sel X Y Z = Ok m ->
  0 <= m /\ (forall n, In n (X ++ Y ++ Z) -> Z.abs (snd n) <= m).
Proof.
  unfold _get_max_lag_from_XYZ. intro H.
  destruct (_get_non_blocked_ancestors fuel links sel X (Some Z) NonRepeating None)
    as [[ax mx]|e|] eqn:Ex; simpl in H; try discriminate.
  destruct (_get_non_blocked_ancestors fuel links sel Y (Some Z) NonRepeating None)
    as [[ay my]|e|] eqn:Ey; simpl in H; try discriminate.
  destruct (_get_non_blocked_ancestors fuel links sel Z (Some Z) NonRepeating None)
    as [[az mz]|e|] eqn:Ez; simpl in H; try discriminate.
  injection H as <-.
  destruct (nonrep_bound_Y _ _ _ _ _ _ _ _ Ex) as [Hx HX].
  destruct (nonrep_bound_Y _ _ _ _ _ _ _ _ Ey) as [Hy HY].
  destruct (nonrep_bound_Y _ _ _ _ _ _ _ _ Ez) as [Hz HZ].
  split; [lia|]. intros n Hn. apply in_app_or in Hn as [Hn|Hn]; [specialize (HX n Hn); lia|].
  apply in_app_or in Hn as [Hn|Hn]; [specialize (HY n Hn); lia | specialize (HZ n Hn); lia].
Qed.

Lemma _get_max_lag_from_XYZ_bound_witness :
  _get_max_lag_from_XYZ 10 lagged_selection_links [] [(0, -2)] [(1, 0)] [] = Ok 3 /\
  Z.abs (snd (0, -2)) <= 3.
Proof.
  assert (H : _get_max_lag_from_XYZ 10 lagged_selection_links [] [(0, -2)] [(1, 0)] [] = Ok 3)
    by (vm_compute; reflexivity).
  split; [exact H|].
  exact (proj2 (_get_max_lag_from_XYZ_bound _ _ _ _ _ _ _ H) (0, -2) (or_introl eq_refl)).
Defined.

(** ** Graph compilation keeps every directed edge *)

Lemma dget_dset_aux_same {A : Type} (d : zdict A) k v :
  dhas d k = true -> dget (dset_aux d k v) k = Ok v.
Proof.
  induction d as [|[k' v'] d IH]; simpl; [discriminate|].
  destruct (Z.eqb_spec k k') as [->|Hne]; simpl; intro H.
  - rewrite Z.eqb_refl. reflexivity.
  - apply Z.eqb_neq in Hne. rewrite Hne. apply IH, H.
Qed.

Lemma dget_dset_aux_other {A : Type} (d : zdict A) k v k' :
  k' <> k -> dget (dset_aux d k v) k' = dget d k'.
Proof.
  intro Hne. induction d as [|[k0 v0] d IH]; simpl; [reflexivity|].
  destruct (Z.eqb_spec k k0) as [->|_]; simpl.
  - apply Z.eqb_neq in Hne. rewrite Hne. reflexivity.
  - rewrite IH. reflexivity.
Qed.

Lemma dget_app_other {A : Type} (d : zdict A) k v k' :
  k' <> k -> dget (d ++ [(k, v)]) k' = dget d k'.
Proof.
  intro Hne. induction d as [|[k0 v0] d IH]; simpl.
  - apply Z.eqb_neq in Hne. rewrite Hne. reflexivity.
  - destruct (k' =? k0); [reflexivity | exact IH].
Qed.

Lemma dappend_get {A : Type} (d d' : zdict (list A)) k x :
  dappend d k x = Ok d' ->
  (exists v, dget d k = Ok v /\ dget d' k = Ok (v ++ [x])) /\
  (forall k', k' <> k -> dget d' k' = dget d k').
Proof.
  unfold dappend. destruct (dget d k) as [v|e|] eqn:E; simpl; try discriminate.
  intro H. injection H as <-. unfold dset. rewrite (dget_dhas _ _ _ E).
  split; [exists v; split; [reflexivity | apply dget_dset_aux_same, (dget_dhas _ _ _ E)]|].
  intros k' Hne. apply dget_dset_aux_other, Hne.
Qed.

Lemma dappend_sub {A : Type} (d d' : zdict (list A)) k x :
  dappend d k x = Ok d' ->
  forall k' l a, dget d k' = Ok l -> In a l -> exists l', dget d' k' = Ok l' /\ In a l'.
Proof.
  intros H k' l a Hl Ha. destruct (dappend_get _ _ _ _ H) as [[v [Ev Ev']] Hother].
  destruct (Z.eq_dec k' k) as [->|Hne].
  - rewrite Ev in Hl. injection Hl as <-. exists (v ++ [x]). split; [exact Ev' | apply in_or_app; left; exact Ha].
  - exists l. rewrite Hother by exact Hne. auto.
Qed.

Lemma dset_fresh_sub {A : Type} (d : zdict A) k v :
  dhas d k = false ->
  forall k' l, dget d k' = Ok l -> dget (dset d k v) k' = Ok l.
Proof.
  intros H k' l Hl. unfold dset. rewrite H. rewrite dget_app_other; [exact Hl|].
  intros ->. rewrite (dget_dhas _ _ _ Hl) in H. discriminate.
Qed.

Lemma insert_edge_sub st i j tau edge_type st' :
  dhas (g_links st) (latent_index st) = false ->
  insert_edge st i j tau edge_type = Ok st' ->
  forall k l a, dget (g_links st) k = Ok l -> In a l ->
  exists l', dget (g_links st') k = Ok l' /\ In a l'.
Proof.
  destruct st as [links sel n]. simpl. intros Hf H k l a Hl Ha. unfold insert_edge in H. simpl in H.
  destruct (String.eqb edge_type "-->").
  { destruct (dappend links j _) as [d1|e|] eqn:E1; simpl in H; try discriminate.
    injection H as <-. exact (dappend_sub _ _ _ _ E1 _ _ _ Hl Ha). }
  destruct (String.eqb edge_type "<--").
  { destruct (dappend links i _) as [d1|e|] eqn:E1; simpl in H; try discriminate.
    injection H as <-. exact (dappend_sub _ _ _ _ E1 _ _ _ Hl Ha). }
  pose proof (dset_fresh_sub links n [] Hf k l Hl) as Hl0.
  destruct (String.eqb edge_type "<->").
  { destruct (dappend (dset links n []) i _) as [d1|e|] eqn:E1; simpl in H; try discriminate.
    destruct (dappend d1 j _) as [d2|e|] eqn:E2; simpl in H; try discriminate.
    injection H as <-. simpl.
    destruct (dappend_sub _ _ _ _ E1 _ _ _ Hl0 Ha) as [l1 [Hl1 Ha1]].
    exact (dappend_sub _ _ _ _ E2 _ _ _ Hl1 Ha1). }
  destruct (String.eqb edge_type "---").
  { destruct (dappend (dset links n []) n _) as [d1|e|] eqn:E1; simpl in H; try discriminate.
    destruct (dappend d1 n _) as [d2|e|] eqn:E2; simpl in H; try discriminate.
    injection H as <-. simpl.
    destruct (dappend_sub _ _ _ _ E1 _ _ _ Hl0 Ha) as [l1 [Hl1 Ha1]].
    exact (dappend_sub _ _ _ _ E2 _ _ _ Hl1 Ha1). }
  injection H as <-. eauto.
Qed.

Lemma graph_wf_fresh N st : graph_wf N st -> dhas (g_links st) (latent_index st) = false.
Proof.
  intros [Hk _]. destruct (dhas (g_links st) (latent_index st)) eqn:E; [|reflexivity].
  apply dhas_In in E. rewrite Hk in E. apply zrange_In in E. lia.
Qed.

Lemma graph_fold_sub graph N : forall cells st st',
  graph_wf N st ->
  (forall i j tau, In (i, j, tau) cells -> 0 <= i < N /\ 0 <= j < N /\ 0 <= tau) ->
  fold_left (graph_step graph) cells (Ok st) = Ok st' ->
  forall k l a, dget (g_links st) k = Ok l -> In a l ->
  exists l', dget (g_links st') k = Ok l' /\ In a l'.
Proof.
  induction cells as [|[[i j] tau] cells IH]; simpl; intros st st' Hst Hr H k l a Hl Ha.
  { injection H as <-. eauto. }
  destruct (Hr i j tau (or_introl eq_refl)) as [Hi [Hj Ht]].
  assert (Hr' : forall i j tau, In (i, j, tau) cells -> 0 <= i < N /\ 0 <= j < N /\ 0 <= tau)
    by (intros; apply Hr; right; assumption).
  try (unfold graph_step at 2 in H); simpl in H.
  destruct (cell_action graph i j tau) as [[]|e|]; simpl in H;
    [| exact (IH _ _ Hst Hr' H _ _ _ Hl Ha)
     | rewrite graph_fold_Raise in H; discriminate | rewrite graph_fold_OutOfFuel in H; discriminate].
  destruct (insert_edge_wf N st i j tau (cell graph i j tau) Hst Hi Hj Ht) as [st1 [E1 Hst1]].
  rewrite E1 in H.
  destruct (insert_edge_sub _ _ _ _ _ _ (graph_wf_fresh _ _ Hst) E1 _ _ _ Hl Ha) as [l1 [Hl1 Ha1]].
  exact (IH _ _ Hst1 Hr' H _ _ _ Hl1 Ha1).
Qed.

(** The effect of one processed cell survives to the end of the compilation. *)
Lemma graph_processed_keeps graph links obs sel c k a :
  get_links_from_graph graph = Ok (links, obs, sel) ->
  In c (where_cells graph) ->
  (forall st st', graph_wf (graph_N graph) st -> graph_step graph (Ok st) c = Ok st' ->
     exists l, dget (g_links st') k = Ok l /\ In a l) ->
  exists l, dget links k = Ok l /\ In a l.
Proof.
  unfold get_links_from_graph. intros H Hin Hc.
  assert (Hr : forall i j tau, In (i, j, tau) (where_cells graph) ->
                 0 <= i < graph_N graph /\ 0 <= j < graph_N graph /\ 0 <= tau)
    by (intros i j tau Hw; destruct (where_cells_range _ _ _ _ Hw) as [? [? ?]]; repeat split; lia).
  destruct (in_split _ _ Hin) as [pre [post Hsplit]].
  rewrite Hsplit, fold_left_app in H.
  assert (Hrpre : forall i j tau, In (i, j, tau) pre ->
                    0 <= i < graph_N graph /\ 0 <= j < graph_N graph /\ 0 <= tau)
    by (intros i j tau Hp; apply Hr; rewrite Hsplit; apply in_or_app; left; exact Hp).
  assert (Hrpost : forall i j tau, In (i, j, tau) post ->
                    0 <= i < graph_N graph /\ 0 <= j < graph_N graph /\ 0 <= tau)
    by (intros i j tau Hp; apply Hr; rewrite Hsplit; apply in_or_app; right; right; exact Hp).
  destruct (graph_fold_result graph _ pre _ (graph_init_wf graph) Hrpre)
    as [[st1 [E1 Hst1]]|[e [? [? [? [_ [_ E1]]]]]]]; rewrite E1 in H.
  2: { simpl in H. rewrite graph_fold_Raise in H. discriminate. }
  change (fold_left (graph_step graph) (c :: post) (Ok st1))
    with (fold_left (graph_step graph) post (graph_step graph (Ok st1) c)) in H.
  destruct (graph_step graph (Ok st1) c) as [st2|e|] eqn:E2; simpl in H;
    [| rewrite graph_fold_Raise in H; discriminate | rewrite graph_fold_OutOfFuel in H; discriminate].
  destruct (fold_left (graph_step graph) post (Ok st2)) as [st3|e|] eqn:E3; simpl in H; try discriminate.
  injection H as <- _ _.
  destruct (Hc _ _ Hst1 E2) as [l [Hl Ha]].
  assert (Hst2 : graph_wf (graph_N graph) st2).
  { destruct c as [[i j] tau]. destruct (Hr i j tau Hin) as [Hi [Hj Ht]].
    unfold graph_step in E2. simpl in E2.
    destruct (cell_action graph i j tau) as [[]|e|]; simpl in E2; try discriminate.
    - destruct (insert_edge_wf _ _ i j tau (cell graph i j tau) Hst1 Hi Hj Ht) as [st' [E' Hst']].
      rewrite E' in E2. injection E2 as <-. exact Hst'.
    - injection E2 as <-. exact Hst1. }
  exact (graph_fold_sub graph _ post _ _ Hst2 Hrpost E3 _ _ _ Hl Ha).
Qed.

Lemma cell_action_lag0_mirror graph i j b :
  cell_action graph i j 0 = Ok b -> _reverse_patt (cell graph j i 0) = Ok (cell graph i j 0).
Proof.
  unfold cell_action. simpl.
  destruct (_reverse_patt (cell graph j i 0)) as [r|e|]; simpl; try discriminate.
  destruct (String.eqb_spec (cell graph i j 0) r) as [->|_]; simpl; [reflexivity | discriminate].
Qed.

Lemma graph_step_true graph st i j tau :
  cell_action graph i j tau = Ok true ->
  graph_step graph (Ok st) (i, j, tau) = insert_edge st i j tau (cell graph i j tau).
Proof. intro H. unfold graph_step. simpl. rewrite H. reflexivity. Qed.

Lemma dappend_last {A : Type} (d d' : zdict (list A)) k x :
  dappend d k x = Ok d' -> exists l, dget d' k = Ok l /\ In x l.
Proof.
  intro H. destruct (dappend_get _ _ _ _ H) as [[v [_ Hv]] _].
  exists (v ++ [x]). split; [exact Hv | apply in_or_app; right; left; reflexivity].
Qed.

(** Every directed edge [graph[i, j, tau] == '-->'] of a graph that
    [get_links_from_graph] compiles appears as the parent entry
    [(i, -tau)] of [links[j]].  A lag-0 cell with [j > i] is skipped by the
    loop; its entry comes from the mirror cell [graph[j, i, 0] == '<--']. *)
Theorem get_links_from_graph_directed graph links obs sel i j tau :
  get_links_from_graph graph = Ok (links, obs, sel) ->
  0 <= i < graph_N graph -> 0 <= j < graph_N graph -> 0 <= tau < graph_T graph ->
  cell graph i j tau = "-->"%string ->
  exists l, dget links j = Ok l /\ In (LP2 i (- tau)) l.
Proof.
  intros H Hi Hj Ht Hc.
  assert (Hchecks : forall a b t, In (a, b, t) (where_cells graph) ->
                      exists bb, cell_action graph a b t = Ok bb).
  { unfold get_links_from_graph in H.
    destruct (fold_left (graph_step graph) (where_cells graph) (Ok (graph_init graph))) as [st|e|] eqn:Ef;
      simpl in H; try discriminate.
    exact (graph_fold_checks _ _ _ _ Ef). }
  assert (Hin : In (i, j, tau) (where_cells graph))
    by (apply In_where_cells; [exact Hi | exact Hj | exact Ht | rewrite Hc; discriminate]).
  destruct (Hchecks _ _ _ Hin) as [b Hb].
  assert (Hfwd : cell_action graph i j tau = Ok true -> exists l, dget links j = Ok l /\ In (LP2 i (- tau)) l).
  { intro Htrue. apply (graph_processed_keeps graph links obs sel (i, j, tau) j _ H Hin).
    intros st st' _ E. rewrite (graph_step_true _ _ _ _ _ Htrue), Hc in E.
    unfold insert_edge in E. simpl in E.
    destruct (dappend (g_links st) j (LP2 i (- tau))) as [d1|e|] eqn:Ed; simpl in E; try discriminate.
    injection E as <-. exact (dappend_last _ _ _ _ Ed). }
  destruct (Z.eq_dec tau 0) as [->|Htau].
  - pose proof (cell_action_lag0 _ _ _ _ Hb) as Hbv.
    destruct (j >? i) eqn:Eji; simpl in Hbv; subst b; [|exact (Hfwd Hb)].
    apply Z.gtb_lt in Eji.
    pose proof (cell_action_lag0_mirror _ _ _ _ Hb) as Hm. rewrite Hc in Hm.
    assert (Hin' : In (j, i, 0) (where_cells graph)).
    { apply In_where_cells; [exact Hj | exact Hi | exact Ht|].
      intro He. rewrite He in Hm. discriminate. }
    destruct (Hchecks _ _ _ Hin') as [b' Hb'].
    pose proof (cell_action_lag0_mirror _ _ _ _ Hb') as Hm'. rewrite Hc in Hm'.
    simpl in Hm'. injection Hm' as Hm'.
    pose proof (cell_action_lag0 _ _ _ _ Hb') as Hbv'.
    assert (Hij : (i >? j) = false) by (rewrite Z.gtb_ltb; apply Z.ltb_ge; lia).
    rewrite Hij in Hbv'. simpl in Hbv'. subst b'.
    apply (graph_processed_keeps graph links obs sel (j, i, 0) j _ H Hin').
    intros st st' _ E. rewrite (graph_step_true _ _ _ _ _ Hb'), <- Hm' in E.
    unfold insert_edge in E. simpl in E.
    match type of E with context [dappend ?d ?k ?x] =>
      destruct (dappend d k x) as [d1|e|] eqn:Ed end; simpl in E; try discriminate.
    injection E as <-. exact (dappend_last _ _ _ _ Ed).
  - apply Hfwd. unfold cell_action in Hb |- *.
    apply Z.eqb_neq in Htau. rewrite Htau in Hb |- *. rewrite Hc in Hb |- *. reflexivity.
Qed.

Lemma get_links_from_graph_directed_witness :
  get_links_from_graph [[[EmptyString; EmptyString]; ["-->"%string; "-->"%string]];
                        [["<--"%string; EmptyString]; [EmptyString; EmptyString]]]
    = Ok ([(0, []); (1, [LP2 0 (-1); LP2 0 0])], [0; 1], []) /\
  exists l, dget [(0, []); (1, [LP2 0 (-1); LP2 0 0])] 1 = Ok l /\ In (LP2 0 (- 0)) l.
Proof.
  assert (H : get_links_from_graph [[[EmptyString; EmptyString]; ["-->"%string; "-->"%string]];
                                    [["<--"%string; EmptyString]; [EmptyString; EmptyString]]]
              = Ok ([(0, []); (1, [LP2 0 (-1); LP2 0 0])], [0; 1], [])) by (vm_compute; reflexivity).
  split; [exact H|].
  apply (get_links_from_graph_directed _ _ _ _ 0 1 0 H);
    [unfold graph_N; simpl; lia | unfold graph_N; simpl; lia | unfold graph_T; simpl; lia | reflexivity].
Defined.
